(** * tensorlib: the dense N-dimensional array of [include/tensor.h]

    A shallow embedding of the C++ class template [Tensor<T>] and of the
    free operators that follow it, together with the properties of the
    storage layout, the coordinate mapping, the axis-wise primitives and the
    elementwise arithmetic.

    Conventions of the embedding.
    - [int] values are integers of [Z]. The one place where the header can
      leave the range of [int] is the constructor, which multiplies the
      requested extents: [Tensor_new32] writes out its 32-bit arithmetic,
      and every statement about a freshly requested shape ([int_shape])
      carries the hypothesis that the running products are representable.
      The members of an existing tensor with positive extents never compute
      a value above its [nelem].
    - [std::vector<X>] is [list X]; [v[i]] outside the buffer is undefined
      behaviour in C++ and is the outcome [Err OutOfBounds] here.
    - [assert(c)] with [c] false is the outcome [Err AssertionFailed].
    - A [const] member or a by-value function is a function into [result];
      a mutating member is a computation [ST A]: it maps the state of
      [*this] to the state it leaves behind and its outcome, so that the
      state at the moment of a failure stays observable.
    - The element type [T] and the [double] of weights and accumulators are
      one scalar type (the header itself hands out [double&] from
      [operator()] and folds in [double]). *)

From Stdlib Require Import ZArith Lia.
From stdpp Require Import base list.

Local Open Scope Z_scope.

(** ** Outcomes *)

Inductive error : Type :=
  | AssertionFailed   (* assert(...) did not hold *)
  | LengthError       (* std::vector::resize refused the requested size *)
  | OutOfBounds       (* operator[] or erase outside the buffer *)
  | DivisionByZero.   (* integer % or / by 0 *)

Inductive result (A : Type) : Type :=
  | Ok (a : A)
  | Err (e : error).
Arguments Ok {A} a.
Arguments Err {A} e.

#[global] Instance result_ret : MRet result := λ A a, Ok a.
#[global] Instance result_bind : MBind result := λ A B f m,
  match m with
  | Ok a => f a
  | Err e => Err e
  end.

#[global] Instance error_eq_dec : EqDecision error.
Proof. solve_decision. Defined.

Definition is_ok {A} (r : result A) : bool :=
  match r with Ok _ => true | Err _ => false end.

(** ** Vectors indexed by [int] *)

(** [v[i]] as an rvalue. *)
Definition vget {A} (v : list A) (i : Z) : result A :=
  if decide (0 ≤ i) then
    match v !! Z.to_nat i with
    | Some x => Ok x
    | None => Err OutOfBounds
    end
  else Err OutOfBounds.

(** [v[i] = x]. *)
Definition vset {A} (v : list A) (i : Z) (x : A) : result (list A) :=
  if decide (0 ≤ i < Z.of_nat (length v)) then Ok (<[Z.to_nat i := x]> v)
  else Err OutOfBounds.

(** [v.resize(n)] on an empty vector, [n] an [int] converted to [size_t]:
    a negative [n] becomes a size above [max_size()] and the call throws. *)
Definition resize {A} (n : Z) (x : A) : result (list A) :=
  if decide (n < 0) then Err LengthError else Ok (replicate (Z.to_nat n) x).

(** [v.reserve(n)], [n] an [int] converted to [size_t]. *)
Definition reserve (n : Z) : result unit :=
  if decide (n < 0) then Err LengthError else Ok tt.

(** [v.erase(v.begin() + p)]. *)
Definition erase {A} (v : list A) (p : Z) : result (list A) :=
  if decide (0 ≤ p < Z.of_nat (length v)) then Ok (delete (Z.to_nat p) v)
  else Err OutOfBounds.

(** [a % b] and [a / b] on [int]: truncating, undefined for [b == 0]. *)
Definition imod (a b : Z) : result Z :=
  if decide (b = 0) then Err DivisionByZero else Ok (Z.rem a b).
Definition idiv (a b : Z) : result Z :=
  if decide (b = 0) then Err DivisionByZero else Ok (Z.quot a b).

(** ** Loops *)

(** [for (int i = k-1; i >= 0; --i) body] *)
Fixpoint for_down {St} (k : nat) (body : Z → St → result St) (s : St)
    : result St :=
  match k with
  | O => Ok s
  | S i => s' ← body (Z.of_nat i) s; for_down i body s'
  end.

(** [for (int i = lo; i < lo + n; ++i) body] *)
Fixpoint for_up {St} (n : nat) (i : Z) (body : Z → St → result St) (s : St)
    : result St :=
  match n with
  | O => Ok s
  | S n' => s' ← body i s; for_up n' (i + 1) body s'
  end.

(** ** Scalars *)

(** The arithmetic the header asks of its element type. *)
Class Scalar (T : Type) : Type := {
  szero : T;              (* T(), and the literal 0 *)
  sone : T;               (* the literal 1 *)
  sadd : T → T → T;       (* std::plus, x+s *)
  ssub : T → T → T;       (* std::minus, x-s *)
  smul : T → T → T;       (* std::multiplies, x*s, w*vec[i] *)
  sdiv : T → T → T;       (* x/s *)
  smax : T → T → T;       (* std::max *)
}.

(** [Tensor<int>], with the arithmetic of the elements exact: the
    statements at this instance are about elements far from the ends of
    [int], and divide by no 0. *)
#[global] Instance Z_Scalar : Scalar Z := {|
  szero := 0; sone := 1;
  sadd := Z.add; ssub := Z.sub; smul := Z.mul; sdiv := Z.quot;
  smax := Z.max;
|}.

(** ** [int] *)

(** The range of the 32-bit two's-complement [int]. *)
Definition int_min : Z := -2147483648.
Definition int_max : Z := 2147483647.
Definition in_int (z : Z) : Prop := int_min ≤ z ≤ int_max.

#[global] Instance in_int_dec (z : Z) : Decision (in_int z).
Proof. unfold in_int. apply _. Defined.

(** The [int] that holds the exact result [z] of an operation on [int]s:
    [z] itself inside the range, and [z] modulo 2^32 outside of it (signed
    overflow is undefined in C++; the compiled multiplication wraps). *)
Definition wrap32 (z : Z) : Z :=
  (z + 2147483648) `mod` 4294967296 - 2147483648.

(** [std::multiplies<int>()], and [p *= d] on [int]s *)
Definition imul32 (a b : Z) : Z := wrap32 (a * b).

(** [std::accumulate(dim.begin(), dim.end(), 1, std::multiplies<int>())] *)
Definition product32 (dim : list Z) : Z := fold_left imul32 dim 1.

(** The same product over the integers: the value of [product32] while
    every running product is an [int] ([product32_ideal]). *)
Definition product (dim : list Z) : Z := fold_left Z.mul dim 1.

(** ** The class *)

Section Tensor.
Context {T : Type} `{Scalar T}.

Record Tensor : Type := mkTensor {
  offsets : list Z;
  nelem : Z;
  dim : list Z;
  vec : list T;
}.

Definition ndim (t : Tensor) : Z := Z.of_nat (length (dim t)).

(** [Tensor(std::vector<int> _dim)], with [nelem] and [p] the [int]s they
    are in the header *)
Definition Tensor_new32 (_dim : list Z) : result Tensor :=
  let dim := _dim in
  let nelem := product32 dim in
  vec ← resize nelem szero;
  let ndim := length dim in
  let offsets := replicate ndim 0 in
  '(offsets, _) ← for_down ndim (λ i '(offsets, p),
      offsets' ← vset offsets i p;
      d ← vget dim i;
      Ok (offsets', imul32 p d)) (offsets, 1);
  Ok (mkTensor offsets nelem dim vec).

(** [Tensor(std::vector<int> _dim)] over the integers: the constructor on a
    shape whose running products are representable ([Tensor_new32_ideal]),
    as [accumulate] calls it on the shape of an existing tensor with one
    extent erased ([accumulate_shape_int]). *)
Definition Tensor_new (_dim : list Z) : result Tensor :=
  let dim := _dim in
  let nelem := product dim in
  vec ← resize nelem szero;
  let ndim := length dim in
  let offsets := replicate ndim 0 in
  '(offsets, _) ← for_down ndim (λ i '(offsets, p),
      offsets' ← vset offsets i p;
      d ← vget dim i;
      Ok (offsets', p * d)) (offsets, 1);
  Ok (mkTensor offsets nelem dim vec).

(** [int location(std::vector<int> ix)] *)
Definition location (t : Tensor) (ix : list Z) : result Z :=
  let loc := 0 in
  let ndim := length (dim t) in
  for_down ndim (λ i loc,
    o ← vget (offsets t) i;
    x ← vget ix i;
    Ok (loc + o * x)) loc.

(** [std::vector<int> index(int loc)] *)
Definition index (t : Tensor) (loc : Z) : result (list Z) :=
  let ndim := length (dim t) in
  let id := replicate ndim 0 in
  '(_, id) ← for_down ndim (λ i '(loc, id),
      d ← vget (dim t) i;
      ix ← imod loc d;
      loc' ← idiv (loc - ix) d;
      id' ← vset id i ix;
      Ok (loc', id')) (loc, id);
  Ok id.

(** [std::vector<int> plane(int axis, int k = 0)] *)
Definition plane (t : Tensor) (axis k : Z) : result (list Z) :=
  let axis := ndim t - 1 - axis in
  let locs := [] in
  _ ← reserve (nelem t);
  for_up (Z.to_nat (nelem t)) 0 (λ i locs,
    id ← index t i;
    c ← vget id axis;
    if decide (c = 0) then
      o ← vget (offsets t) axis;
      Ok (locs ++ [i + k * o])
    else Ok locs) locs.

Definition set_vec (t : Tensor) (v : list T) : Tensor :=
  mkTensor (offsets t) (nelem t) (dim t) v.

(** *** Mutating members: state of [*this] and outcome *)

Definition ST (A : Type) : Type := Tensor → Tensor * result A.

#[global] Instance ST_ret : MRet ST := λ A a t, (t, Ok a).
#[global] Instance ST_bind : MBind ST := λ A B f m t,
  match m t with
  | (t', Ok a) => f a t'
  | (t', Err e) => (t', Err e)
  end.

Definition st_get : ST Tensor := λ t, (t, Ok t).
Definition st_lift {A} (r : result A) : ST A := λ t, (t, r).
Definition st_assert (c : bool) : ST unit :=
  st_lift (if c then Ok tt else Err AssertionFailed).
(** [vec[i]] read and [vec[i] = x] on [*this] *)
Definition st_read (i : Z) : ST T := λ t, (t, vget (vec t) i).
Definition st_write (i : Z) (x : T) : ST unit := λ t,
  match vset (vec t) i x with
  | Ok v => (set_vec t v, Ok tt)
  | Err e => (t, Err e)
  end.

(** [for (int i = lo; i < lo + n; ++i) body], the body acting on [*this] *)
Fixpoint st_for_up {St} (n : nat) (i : Z) (body : Z → St → ST St) (s : St)
    : ST St :=
  match n with
  | O => mret s
  | S n' => s' ← body i s; st_for_up n' (i + 1) body s'
  end.

(** What the caller of a by-value function gets back: the mutated copy. *)
Definition run {A} (m : ST A) (t : Tensor) : result Tensor :=
  let '(t', r) := m t in _ ← r; Ok t'.

(** [void transform_dim(int loc, int axis, BinOp binary_op,
    std::vector<double> w)] *)
Definition transform_dim (loc axis : Z) (binary_op : T → T → T) (w : list T)
    : ST unit :=
  t ← st_get;
  d ← st_lift (vget (dim t) (ndim t - 1 - axis));
  _ ← st_assert (bool_decide (Z.of_nat (length w) = d));
  let axis := ndim t - 1 - axis in
  off ← st_lift (vget (offsets t) axis);
  n ← st_lift (vget (dim t) axis);
  _ ← st_for_up (Z.to_nat n) 0 (λ count i,
      x ← st_read i;
      wc ← st_lift (vget w count);
      _ ← st_write i (binary_op x wc);
      mret (i + off)) loc;
  mret tt.

(** [void transform(int axis, BinOp binary_op, std::vector<double> w)] *)
Definition transform (axis : Z) (binary_op : T → T → T) (w : list T)
    : ST unit :=
  t ← st_get;
  locs ← st_lift (plane t axis 0);
  st_for_up (length locs) 0 (λ i _,
    l ← st_lift (vget locs i);
    transform_dim l axis binary_op w) tt.

(** [double accumulate_dim(double v0, int loc, int axis, BinOp binary_op,
    std::vector<double> weights={})]; the accumulator starts from the
    literal [0], the parameter [v0] is not read. *)
Definition accumulate_dim (t : Tensor) (v0 : T) (loc axis : Z)
    (binary_op : T → T → T) (weights : list T) : result T :=
  let wsize := Z.of_nat (length weights) in
  _ ← (if decide (wsize = 0) then Ok tt
       else d ← vget (dim t) (ndim t - 1 - axis);
            if decide (wsize = d) then Ok tt else Err AssertionFailed);
  let axis := ndim t - 1 - axis in
  off ← vget (offsets t) axis;
  let v := szero in
  n ← vget (dim t) axis;
  '(_, v) ← for_up (Z.to_nat n) 0 (λ count '(i, v),
      w ← (if decide (0 < wsize) then vget weights count else Ok sone);
      x ← vget (vec t) i;
      Ok (i + off, binary_op v (smul w x))) (loc, v);
  Ok v.

(** [Tensor<T> accumulate(T v0, int axis, BinOp binary_op,
    std::vector<double> weights={})] *)
Definition accumulate (t : Tensor) (v0 : T) (axis : Z)
    (binary_op : T → T → T) (weights : list T) : result Tensor :=
  let dim_new := dim t in
  dim_new ← erase dim_new (Z.of_nat (length dim_new) - 1 - axis);
  tens ← Tensor_new dim_new;
  locs ← plane t axis 0;
  for_up (length locs) 0 (λ i tens,
    l ← vget locs i;
    a ← accumulate_dim t v0 l axis binary_op weights;
    v' ← vset (vec tens) i a;
    Ok (set_vec tens v')) tens.

(** [Tensor<T> max_dim(int axis)] *)
Definition max_dim (t : Tensor) (axis : Z) : result Tensor :=
  v0 ← vget (vec t) 1;
  accumulate t v0 axis (λ a b, smax a b) [].

(** [Tensor<T> repeat_inner(int n) const]. The result is constructed on
    [int] ([Tensor_new32]); [count] walks its buffer and stays below the
    size of it, which is an [int]: a write at [count] outside of the buffer
    ends the run. *)
Definition repeat_inner (t : Tensor) (n : Z) : result Tensor :=
  let dim_new := dim t in
  let dim_new := dim_new ++ [n] in
  tout ← Tensor_new32 dim_new;
  let count := 0 in
  '(tout, _) ← for_up (Z.to_nat (nelem t)) 0 (λ i s,
      for_up (Z.to_nat n) 0 (λ j '(tout, count),
        x ← vget (vec t) i;
        v' ← vset (vec tout) count x;
        Ok (set_vec tout v', count + 1)) s) (tout, count);
  Ok tout.

(** [Tensor<T> repeat_outer(int n) const], with the constructor and
    [count] as in [repeat_inner] *)
Definition repeat_outer (t : Tensor) (n : Z) : result Tensor :=
  let dim_new := dim t in
  let dim_new := n :: dim_new in
  tout ← Tensor_new32 dim_new;
  let count := 0 in
  '(tout, _) ← for_up (Z.to_nat n) 0 (λ j s,
      for_up (Z.to_nat (nelem t)) 0 (λ i '(tout, count),
        x ← vget (vec t) i;
        v' ← vset (vec tout) count x;
        Ok (set_vec tout v', count + 1)) s) (tout, count);
  Ok tout.

(** *** Operators *)

(** [std::transform(first1, last1, first2, first1, op)]: walks the first
    range, reading the second one in step; running off the second range is
    an out-of-bounds read, with the elements before it already written. *)
Fixpoint std_transform2 (op : T → T → T) (xs ys : list T)
    : list T * result unit :=
  match xs, ys with
  | [], _ => ([], Ok tt)
  | x :: xs', [] => (x :: xs', Err OutOfBounds)
  | x :: xs', y :: ys' =>
      let '(r, e) := std_transform2 op xs' ys' in (op x y :: r, e)
  end.

(** [std::transform(first, last, first, f)] *)
Definition std_transform1 (f : T → T) (xs : list T) : list T := map f xs.

Definition st_transform2 (op : T → T → T) (ys : list T) : ST unit := λ t,
  let '(v, e) := std_transform2 op (vec t) ys in (set_vec t v, e).
Definition st_transform1 (f : T → T) : ST unit := λ t,
  (set_vec t (std_transform1 f (vec t)), Ok tt).

(** The compound operators. In the header they end without
    [return *this]: flowing off their end is undefined behaviour, whatever
    the caller does with the reference, and an optimising compiler may emit
    no return at all. The model is of the statements they do contain, that
    is of their effect on [*this]; [Ok tt] says that these statements ran
    to their end. *)

(** [Tensor<T>& operator += (const Tensor<S>& rhs)] *)
Definition op_add_assign (rhs : Tensor) : ST unit :=
  t ← st_get;
  _ ← st_assert (bool_decide (dim t = dim rhs));
  st_transform2 sadd (vec rhs).

(** [Tensor<T>& operator -= (const Tensor<S>& rhs)] *)
Definition op_sub_assign (rhs : Tensor) : ST unit :=
  t ← st_get;
  _ ← st_assert (bool_decide (dim t = dim rhs));
  st_transform2 ssub (vec rhs).

(** [Tensor<T>& operator *= (const Tensor<S>& rhs)] *)
Definition op_mul_assign (rhs : Tensor) : ST unit :=
  t ← st_get;
  _ ← st_assert (bool_decide (dim t = dim rhs));
  st_transform2 smul (vec rhs).

(** [Tensor<T>& operator += (S s)] and its siblings *)
Definition op_add_assign_s (s : T) : ST unit := st_transform1 (λ x, sadd x s).
Definition op_sub_assign_s (s : T) : ST unit := st_transform1 (λ x, ssub x s).
Definition op_mul_assign_s (s : T) : ST unit := st_transform1 (λ x, smul x s).
Definition op_div_assign_s (s : T) : ST unit := st_transform1 (λ x, sdiv x s).

(** [Tensor<T> operator + (Tensor<T> lhs, const Tensor<T>& rhs)] *)
Definition op_add (lhs rhs : Tensor) : result Tensor :=
  if decide (dim lhs = dim rhs) then run (op_add_assign rhs) lhs
  else Err AssertionFailed.

(** [Tensor<T> operator - (Tensor<T> lhs, const Tensor<T>& rhs)] *)
Definition op_sub (lhs rhs : Tensor) : result Tensor :=
  if decide (dim lhs = dim rhs) then run (op_sub_assign rhs) lhs
  else Err AssertionFailed.

(** [Tensor<T> operator * (Tensor<T> lhs, const Tensor<T>& rhs)] *)
Definition op_mul (lhs rhs : Tensor) : result Tensor :=
  if decide (dim lhs = dim rhs) then run (op_mul_assign rhs) lhs
  else Err AssertionFailed.

(** [Tensor<T> operator + (Tensor<T> lhs, S s)] and its siblings *)
Definition op_add_s (lhs : Tensor) (s : T) : result Tensor :=
  run (op_add_assign_s s) lhs.
Definition op_sub_s (lhs : Tensor) (s : T) : result Tensor :=
  run (op_sub_assign_s s) lhs.
Definition op_div_s (lhs : Tensor) (s : T) : result Tensor :=
  run (op_div_assign_s s) lhs.
Definition op_mul_s (lhs : Tensor) (s : T) : result Tensor :=
  run (op_mul_assign_s s) lhs.

(** [Tensor<T> operator + (S s, Tensor<T> t)]: [return t+s;] *)
Definition s_op_add (s : T) (t : Tensor) : result Tensor := op_add_s t s.
(** [Tensor<T> operator - (S s, Tensor<T> t)]: [return t-s;] *)
Definition s_op_sub (s : T) (t : Tensor) : result Tensor := op_sub_s t s.
(** [Tensor<T> operator * (S s, Tensor<T> t)]: [return t*s;] *)
Definition s_op_mul (s : T) (t : Tensor) : result Tensor := op_mul_s t s.

End Tensor.

Arguments Tensor T : clear implicits.
Arguments ST T A : clear implicits.

(** ** The layout, as functions of the shape *)

(** [offsets[i]] is the product of the extents to the right of [i]; the
    loop of the constructor arrives at a segment with the product [p] of
    what it has already passed. *)
Fixpoint scaled_offsets (p : Z) (dim : list Z) : list Z :=
  match dim with
  | [] => []
  | _ :: ds => p * product ds :: scaled_offsets p ds
  end.

Definition offsets_of (dim : list Z) : list Z := scaled_offsets 1 dim.

(** Σ offsets[i] * ix[i] *)
Fixpoint dot (os xs : list Z) : Z :=
  match os, xs with
  | o :: os', x :: xs' => o * x + dot os' xs'
  | _, _ => 0
  end.

(** Mixed-radix digits of [loc], innermost first, against the extents
    innermost first, with the arithmetic of [index]. *)
Fixpoint digits (rdim : list Z) (loc : Z) : list Z :=
  match rdim with
  | [] => []
  | d :: ds =>
      let ix := Z.rem loc d in ix :: digits ds (Z.quot (loc - ix) d)
  end.

(** The number with the given mixed-radix digits, innermost first. *)
Fixpoint value (rdim rix : list Z) : Z :=
  match rdim, rix with
  | d :: ds, x :: xs => x + d * value ds xs
  | _, _ => 0
  end.

(** The class invariant: what the constructor establishes and every
    member keeps. *)
Definition wf {T} (t : Tensor T) : Prop :=
  offsets t = offsets_of (dim t) ∧
  nelem t = product (dim t) ∧
  Z.of_nat (length (vec t)) = nelem t.

Definition positive_dims {T} (t : Tensor T) : Prop :=
  Forall (λ d, 0 < d) (dim t).

(** The products the constructor forms on a requested shape: those of
    [std::accumulate], over the extents from the left, and those of the
    loop that fills [offsets], over the extents from the right. *)
Definition running_products (shape : list Z) : list Z :=
  ((λ k, product (take k shape)) <$> seq 0 (S (length shape))) ++
  ((λ k, product (drop k shape)) <$> seq 0 (S (length shape))).

(** A shape the constructor can be asked for without leaving [int]: the
    extents are [int]s, and so is every product formed on the way. *)
Definition int_shape (shape : list Z) : Prop :=
  Forall in_int shape ∧ Forall in_int (running_products shape).

#[global] Instance int_shape_dec (shape : list Z) : Decision (int_shape shape).
Proof. unfold int_shape. apply _. Defined.

#[global] Instance result_eq_dec {A} `{EqDecision A} : EqDecision (result A).
Proof. solve_decision. Defined.

(** [void fill_sequence()] (for debug only), for integer elements *)
Definition fill_sequence : ST Z unit := λ t,
  (set_vec t (seqZ 0 (Z.of_nat (length (vec t)))), Ok tt).

(** The tensor drawn in the comment at the head of the file: dimensions
    [2,3,5], elements 0..29. *)
Definition example235 : Tensor Z :=
  mkTensor [15; 5; 1] 30 [2; 3; 5] (seqZ 0 30).

(** What an in-place operation leaves alone: the shape members and the
    size of the buffer. *)
Definition same_shape {T} (t t' : Tensor T) : Prop :=
  dim t' = dim t ∧ offsets t' = offsets t ∧ nelem t' = nelem t ∧
  length (vec t') = length (vec t).

Definition keeps_shape {T A} (m : ST T A) : Prop :=
  ∀ t, same_shape t (m t).1.

(** The scalar-left difference as the specification words it: every
    element is [s] minus the element of [t]. *)
Definition scalar_minus_tensor_spec {T} `{Scalar T} (s : T) (t : Tensor T)
    : Tensor T :=
  set_vec t (map (λ x, ssub s x) (vec t)).

(** The reduction of one line as the specification words it: [v = initial],
    then for [count = 0 .. dim[a]-1], [v = binaryOp(v, w*element)] with the
    element stored at [startOffset + count*offsets[a]]. *)
Definition accumulate_dim_spec {T} `{Scalar T} (t : Tensor T) (initial : T)
    (startOffset axis : Z) (binaryOp : T → T → T) (weights : list T)
    : result T :=
  let a := ndim t - 1 - axis in
  d ← vget (dim t) a;
  o ← vget (offsets t) a;
  for_up (Z.to_nat d) 0 (λ count v,
    element ← vget (vec t) (startOffset + count * o);
    w ← (if decide (weights = []) then Ok sone else vget weights count);
    Ok (binaryOp v (smul w element))) initial.

(** The non-commutative operation of the specification's example,
    [f(acc, w) = acc*2 + w]. *)
Definition smoothing (acc w : Z) : Z := acc * 2 + w.

(** Small tensors for the examples. *)
Definition line12 : Tensor Z := mkTensor [1] 2 [2] [1; 2].
Definition line123 : Tensor Z := mkTensor [1] 3 [3] [1; 2; 3].
Definition single7 : Tensor Z := mkTensor [1] 1 [1] [7].
Definition zeros235 : Tensor Z :=
  mkTensor [15; 5; 1] 30 [2; 3; 5] (replicate 30 0).
Definition zeros253 : Tensor Z :=
  mkTensor [15; 3; 1] 30 [2; 5; 3] (replicate 30 0).

(** A tensor with an extent 0, as the constructor makes it for [2,0,3],
    and one with negative elements. *)
Definition empty203 : Tensor Z := mkTensor [0; 3; 1] 0 [2; 0; 3] [].
Definition negatives23 : Tensor Z :=
  mkTensor [3; 1] 6 [2; 3] [-1; -2; -3; -4; -5; -6].

(** [double& operator() (std::vector<int> ix)], the reference read *)
Definition op_call {T} (t : Tensor T) (ix : list Z) : result T :=
  loc ← location t ix; vget (vec t) loc.

(** [double& operator() (std::vector<int> ix)], the reference assigned:
    [t(ix) = x] *)
Definition op_call_assign {T} (ix : list Z) (x : T) : ST T unit :=
  t ← st_get;
  loc ← st_lift (location t ix);
  st_write loc x.

(** Coordinates, outermost first, within the extents [dim]. *)
Definition valid_coords (dim c : list Z) : Prop :=
  Forall2 (λ x d, 0 ≤ x < d) c dim.

(** ** Vectors and products *)

Lemma vget_nat {A} (v : list A) (n : nat) (x : A) :
  v !! n = Some x → vget v (Z.of_nat n) = Ok x.
Proof.
  intros Hx. unfold vget. rewrite decide_True by lia.
  by rewrite Nat2Z.id, Hx.
Qed.

Lemma vget_Ok {A} (v : list A) (i : Z) (x : A) :
  vget v i = Ok x ↔ 0 ≤ i ∧ v !! Z.to_nat i = Some x.
Proof.
  unfold vget. destruct (decide (0 ≤ i)) as [Hi|Hi].
  - destruct (v !! Z.to_nat i); split; intros; destruct_and?; simplify_eq; done.
  - split; intros; destruct_and?; simplify_eq; done.
Qed.

Lemma vget_oob {A} (v : list A) (i : Z) :
  Z.of_nat (length v) ≤ i → vget v i = Err OutOfBounds.
Proof.
  intros Hi. unfold vget. destruct (decide (0 ≤ i)); [|done].
  rewrite (lookup_ge_None_2 v (Z.to_nat i)); [done|lia].
Qed.

Lemma vset_nat {A} (v : list A) (n : nat) (x : A) :
  (n < length v)%nat → vset v (Z.of_nat n) x = Ok (<[n:=x]> v).
Proof.
  intros Hn. unfold vset. rewrite decide_True by lia. by rewrite Nat2Z.id.
Qed.

Lemma bind_Ok {A B} (a : A) (f : A → result B) : (Ok a ≫= f) = f a.
Proof. done. Qed.

Lemma for_up_S {St} (n : nat) (i : Z) (body : Z → St → result St) (s : St) :
  for_up (S n) i body s = s' ← body i s; for_up n (i + 1) body s'.
Proof. done. Qed.

Lemma imod_nz (a b : Z) : b ≠ 0 → imod a b = Ok (Z.rem a b).
Proof. intros. unfold imod. by rewrite decide_False. Qed.

Lemma idiv_nz (a b : Z) : b ≠ 0 → idiv a b = Ok (Z.quot a b).
Proof. intros. unfold idiv. by rewrite decide_False. Qed.

Lemma fold_left_mul (l : list Z) (a : Z) :
  fold_left Z.mul l a = a * fold_left Z.mul l 1.
Proof.
  revert a. induction l as [|x l IH]; intros a; simpl; [lia|].
  rewrite (IH (a * x)), (IH (1 * x)). lia.
Qed.

Lemma product_nil : product [] = 1.
Proof. done. Qed.

Lemma product_cons (d : Z) (ds : list Z) : product (d :: ds) = d * product ds.
Proof. unfold product. simpl. rewrite fold_left_mul. lia. Qed.

Lemma product_app (l k : list Z) : product (l ++ k) = product l * product k.
Proof.
  induction l as [|x l IH]; simpl.
  - rewrite product_nil. lia.
  - rewrite !product_cons, IH. lia.
Qed.

Lemma product_reverse (l : list Z) : product (reverse l) = product l.
Proof.
  induction l as [|x l IH]; [done|].
  rewrite reverse_cons, product_app, IH, !product_cons, product_nil. lia.
Qed.

Lemma product_pos (l : list Z) : Forall (λ d, 0 < d) l → 0 < product l.
Proof.
  induction 1 as [|x l Hx _ IH]; [done|]. rewrite product_cons. lia.
Qed.

Lemma scaled_offsets_length (p : Z) (l : list Z) :
  length (scaled_offsets p l) = length l.
Proof. induction l; simpl; congruence. Qed.

Lemma scaled_offsets_snoc (p d : Z) (l : list Z) :
  scaled_offsets p (l ++ [d]) = scaled_offsets (p * d) l ++ [p].
Proof.
  induction l as [|x l IH]; simpl.
  - rewrite product_nil. f_equal. lia.
  - rewrite IH, product_app, product_cons, product_nil. f_equal. lia.
Qed.

(** ** Products on [int] *)

Lemma wrap32_id (z : Z) : in_int z → wrap32 z = z.
Proof.
  unfold in_int, int_min, int_max, wrap32. intros Hz.
  rewrite Z.mod_small; lia.
Qed.

Lemma int_shape_take (shape : list Z) (k : nat) :
  int_shape shape → in_int (product (take k shape)).
Proof.
  intros [_ Hrun]. unfold running_products in Hrun.
  apply Forall_app in Hrun as [Hrun _].
  rewrite Forall_fmap, Forall_forall in Hrun.
  destruct (decide (k ≤ length shape)%nat) as [Hk|Hk].
  - apply (Hrun k), elem_of_seq. lia.
  - rewrite take_ge by lia. rewrite <-(firstn_all shape).
    apply (Hrun (length shape)), elem_of_seq. lia.
Qed.

Lemma int_shape_drop (shape : list Z) (k : nat) :
  int_shape shape → in_int (product (drop k shape)).
Proof.
  intros [_ Hrun]. unfold running_products in Hrun.
  apply Forall_app in Hrun as [_ Hrun].
  rewrite Forall_fmap, Forall_forall in Hrun.
  destruct (decide (k ≤ length shape)%nat) as [Hk|Hk].
  - apply (Hrun k), elem_of_seq. lia.
  - rewrite drop_ge by lia. rewrite <-(drop_all shape).
    apply (Hrun (length shape)), elem_of_seq. lia.
Qed.

Lemma int_shape_intro (shape : list Z) :
  Forall in_int shape →
  (∀ k, in_int (product (take k shape)) ∧ in_int (product (drop k shape))) →
  int_shape shape.
Proof.
  intros Hd Hk. split; [done|]. unfold running_products.
  apply Forall_app. split; apply Forall_fmap, Forall_forall; intros k _;
    apply Hk.
Qed.

(** Over positive extents every running product lies between 1 and the
    whole product. *)
Lemma product_segments (l : list Z) (k : nat) :
  Forall (λ d, 0 < d) l →
  1 ≤ product (take k l) ≤ product l ∧ 1 ≤ product (drop k l) ≤ product l.
Proof.
  intros Hl.
  assert (0 < product (take k l)) by by apply product_pos, Forall_take.
  assert (0 < product (drop k l)) by by apply product_pos, Forall_drop.
  assert (product l = product (take k l) * product (drop k l)) as ->
    by by rewrite <-product_app, take_drop.
  nia.
Qed.

Lemma product_extent (l : list Z) (d : Z) :
  Forall (λ d, 0 < d) l → d ∈ l → 1 ≤ d ≤ product l.
Proof.
  intros Hl Hd. apply list_elem_of_split in Hd as (l1 & l2 & ->).
  apply Forall_app in Hl as [Hl1 Hl2]. apply Forall_cons in Hl2 as [Hd Hl2].
  apply product_pos in Hl1, Hl2.
  rewrite product_app, product_cons.
  assert (1 ≤ product l1 * product l2) as Hp by nia.
  replace (product l1 * (d * product l2))
    with (d * (product l1 * product l2)) by lia.
  nia.
Qed.

(** A shape of positive extents is an [int] shape as soon as its product
    is an [int]. *)
Lemma int_shape_positive (shape : list Z) :
  Forall (λ d, 0 < d) shape → product shape ≤ int_max → int_shape shape.
Proof.
  intros Hpos Hmax. apply int_shape_intro.
  - apply Forall_forall. intros d Hd.
    pose proof (product_extent _ _ Hpos Hd). unfold in_int, int_min. lia.
  - intros k. pose proof (product_segments shape k Hpos).
    unfold in_int, int_min. lia.
Qed.

(** The shapes that [repeat_inner] and [repeat_outer] request: positive
    extents with an [int] product, and one more extent [n] of any sign, at
    the end or at the head. They are [int] shapes as soon as the product
    with [n] is an [int]. *)
Lemma product_scaled_range (q m n : Z) :
  1 ≤ q ≤ m → in_int n → in_int (m * n) → in_int (q * n).
Proof.
  unfold in_int, int_min, int_max. intros Hq Hn Hmn.
  destruct (decide (0 ≤ n)).
  - assert (0 ≤ q * n ≤ m * n) by nia. lia.
  - assert (m * n ≤ q * n ≤ n) by nia. lia.
Qed.

Lemma int_of_multiple (m n : Z) : 1 ≤ m → in_int (m * n) → in_int n.
Proof.
  unfold in_int, int_min, int_max. intros Hm Hmn.
  destruct (decide (0 ≤ n)).
  - assert (0 ≤ n ≤ m * n) by nia. lia.
  - assert (m * n ≤ n) by nia. lia.
Qed.

Lemma int_shape_snoc (dim : list Z) (n : Z) :
  Forall (λ d, 0 < d) dim → product dim ≤ int_max →
  in_int (product dim * n) → int_shape (dim ++ [n]).
Proof.
  intros Hpos Hmax Hn. pose proof (product_pos _ Hpos) as Hp.
  assert (in_int n) as Hn' by (apply (int_of_multiple (product dim)); [lia|done]).
  apply int_shape_intro.
  - apply Forall_app. split; [|by apply Forall_singleton].
    apply Forall_forall. intros d Hd.
    pose proof (product_extent _ _ Hpos Hd). unfold in_int, int_min. lia.
  - intros k. pose proof (product_segments dim k Hpos) as [Ht Hd].
    destruct (decide (k ≤ length dim)%nat) as [Hk|Hk].
    + rewrite take_app_le, drop_app_le by lia. rewrite product_app.
      rewrite product_cons, product_nil, Z.mul_1_r.
      split; [unfold in_int, int_min; lia|].
      by apply (product_scaled_range _ (product dim)).
    + rewrite take_ge, drop_ge by (rewrite length_app; cbn; lia).
      rewrite product_app, product_cons, product_nil, Z.mul_1_r.
      split; [done|]. unfold in_int, int_min, int_max. lia.
Qed.

Lemma int_shape_cons (dim : list Z) (n : Z) :
  Forall (λ d, 0 < d) dim → product dim ≤ int_max →
  in_int (n * product dim) → int_shape (n :: dim).
Proof.
  intros Hpos Hmax Hn. pose proof (product_pos _ Hpos) as Hp.
  rewrite Z.mul_comm in Hn.
  assert (in_int n) as Hn' by (apply (int_of_multiple (product dim)); [lia|done]).
  apply int_shape_intro.
  - apply Forall_cons. split; [done|].
    apply Forall_forall. intros d Hd.
    pose proof (product_extent _ _ Hpos Hd). unfold in_int, int_min. lia.
  - intros [|k].
    + rewrite take_0, drop_0, product_nil, product_cons.
      split; [unfold in_int, int_min, int_max; lia|]. by rewrite Z.mul_comm.
    + pose proof (product_segments dim k Hpos) as [Ht Hd].
      cbn [take drop]. rewrite product_cons.
      split; [|unfold in_int, int_min; lia].
      rewrite Z.mul_comm. by apply (product_scaled_range _ (product dim)).
Qed.

(** While the running products are [int]s, the multiplication never
    wraps. *)
Lemma product32_ideal (dim : list Z) :
  int_shape dim → product32 dim = product dim.
Proof.
  intros Hint.
  assert (∀ k, product32 (take k dim) = product (take k dim)) as Hk.
  { induction k as [|k IH]; [by rewrite take_0|].
    destruct (dim !! k) as [d|] eqn:Hd.
    - pose proof (int_shape_take dim (S k) Hint) as Hin.
      rewrite (take_S_r _ _ _ Hd) in *. unfold product32, product in *.
      rewrite !fold_left_app. cbn. rewrite IH. unfold imul32.
      apply wrap32_id. by rewrite fold_left_app in Hin.
    - apply lookup_ge_None_1 in Hd.
      rewrite (take_ge dim (S k)) by lia.
      by rewrite (take_ge dim k) in IH by lia. }
  specialize (Hk (length dim)). by rewrite firstn_all in Hk.
Qed.

(** ** The constructor *)

Section Construction.
Context {T : Type} `{Scalar T}.

(** The offsets loop, entered at index [m-1] with the product [p]. *)
Lemma offsets_loop (dim : list Z) (m : nat) (offs : list Z) (p : Z) :
  (m ≤ length dim)%nat → length offs = length dim →
  for_down m (λ i '(offsets, p),
      offsets' ← vset offsets i p;
      d ← vget dim i;
      Ok (offsets', p * d)) (offs, p)
  = Ok (scaled_offsets p (take m dim) ++ drop m offs,
        p * product (take m dim)).
Proof.
  revert offs p. induction m as [|m IH]; intros offs p Hm Hlen.
  - cbn. rewrite take_0, drop_0, product_nil. cbn. do 2 f_equal. lia.
  - destruct (lookup_lt_is_Some_2 dim m) as [d Hd]; [lia|].
    destruct (lookup_lt_is_Some_2 offs m) as [o Ho]; [lia|].
    cbn [for_down]. rewrite vset_nat by lia. cbn.
    rewrite (vget_nat _ _ _ Hd). cbn.
    rewrite IH by (rewrite ?length_insert; lia).
    rewrite (take_S_r _ _ _ Hd), scaled_offsets_snoc, product_app.
    rewrite product_cons, product_nil.
    rewrite drop_insert_ge by lia. rewrite (drop_S _ _ _ Ho).
    rewrite Nat.sub_diag. cbn. rewrite <-app_assoc. cbn.
    do 2 f_equal. lia.
Qed.

Lemma Tensor_new_Ok (dim : list Z) :
  0 ≤ product dim →
  Tensor_new (T:=T) dim
  = Ok (mkTensor (offsets_of dim) (product dim) dim
          (replicate (Z.to_nat (product dim)) szero)).
Proof.
  intros Hp. unfold Tensor_new, resize. rewrite decide_False by lia. cbn.
  rewrite offsets_loop by (rewrite ?length_replicate; lia). cbn.
  rewrite firstn_all, drop_ge by (rewrite length_replicate; lia).
  by rewrite app_nil_r.
Qed.

Lemma Tensor_new_Err (dim : list Z) :
  product dim < 0 → Tensor_new (T:=T) dim = Err LengthError.
Proof.
  intros Hp. unfold Tensor_new, resize. by rewrite decide_True by lia.
Qed.

Lemma Tensor_new_wf (dim : list Z) (t : Tensor T) :
  Tensor_new dim = Ok t → wf t.
Proof.
  destruct (decide (0 ≤ product dim)) as [Hp|Hp].
  - rewrite Tensor_new_Ok by done. intros [= <-]. unfold wf. cbn.
    rewrite length_replicate. split_and!; [done..|lia].
  - rewrite Tensor_new_Err by lia. done.
Qed.

(** The offsets loop on [int], entered at index [m-1] with the product of
    the extents behind it. *)
Lemma offsets_loop32 (dim : list Z) (m : nat) (offs : list Z) :
  int_shape dim → (m ≤ length dim)%nat →
  for_down m (λ i '(offsets, p),
      offsets' ← vset offsets i p;
      d ← vget dim i;
      Ok (offsets', imul32 p d)) (offs, product (drop m dim))
  = for_down m (λ i '(offsets, p),
      offsets' ← vset offsets i p;
      d ← vget dim i;
      Ok (offsets', p * d)) (offs, product (drop m dim)).
Proof.
  intros Hint. revert offs. induction m as [|m IH]; intros offs Hm; [done|].
  destruct (lookup_lt_is_Some_2 dim m) as [d Hd]; [lia|].
  cbn [for_down].
  destruct (vset offs (Z.of_nat m) (product (drop (S m) dim))) as [offs'|e];
    [|done].
  cbn. rewrite (vget_nat _ _ _ Hd). cbn.
  assert (product (drop (S m) dim) * d = product (drop m dim)) as Hp.
  { rewrite (drop_S _ _ _ Hd), product_cons. lia. }
  unfold imul32. rewrite Hp, wrap32_id by by apply int_shape_drop.
  apply IH. lia.
Qed.

(** On an [int] shape the constructor computes over the integers. *)
Lemma Tensor_new32_ideal (dim : list Z) :
  int_shape dim → Tensor_new32 (T:=T) dim = Tensor_new dim.
Proof.
  intros Hint. unfold Tensor_new32, Tensor_new.
  rewrite product32_ideal by done.
  destruct (resize (product dim) szero) as [v|e]; [|done]. cbn.
  pose proof (offsets_loop32 dim (length dim)
                (replicate (length dim) 0) Hint) as Hloop.
  rewrite drop_all, product_nil in Hloop. by rewrite Hloop.
Qed.

(** The shape [accumulate] constructs: that of a tensor with positive
    extents and an [int] number of elements, with one extent erased. *)
Lemma accumulate_shape_int (t : Tensor T) (a : nat) :
  wf t → positive_dims t → nelem t ≤ int_max →
  Tensor_new32 (T:=T) (delete a (dim t)) = Tensor_new (delete a (dim t)).
Proof.
  intros (_ & Hn & _) Hpos Hmax. apply Tensor_new32_ideal.
  unfold positive_dims in Hpos. rewrite delete_take_drop.
  assert (0 < product (take a (dim t))) by by apply product_pos, Forall_take.
  assert (0 < product (drop (S a) (dim t)))
    by by apply product_pos, Forall_drop.
  apply int_shape_positive;
    [apply Forall_app; split; [by apply Forall_take|by apply Forall_drop]|].
  rewrite product_app. destruct (dim t !! a) as [d|] eqn:Hd.
  - pose proof (product_extent _ _ Hpos (list_elem_of_lookup_2 _ _ _ Hd)).
    rewrite <-(take_drop_middle _ _ _ Hd) in Hn.
    rewrite product_app, product_cons in Hn. nia.
  - apply lookup_ge_None_1 in Hd.
    rewrite take_ge, drop_ge, product_nil by lia. lia.
Qed.

End Construction.

(** ** Mixed-radix arithmetic *)

Lemma dot_snoc (os xs : list Z) (o x : Z) :
  length os = length xs → dot (os ++ [o]) (xs ++ [x]) = dot os xs + o * x.
Proof.
  revert xs. induction os as [|o' os IH]; intros [|x' xs] Hlen;
    simplify_eq/=; [lia|].
  rewrite IH by done. lia.
Qed.

Lemma dot_scaled_offsets (p : Z) (dim ix : list Z) :
  length ix = length dim →
  dot (scaled_offsets p dim) ix = p * value (reverse dim) (reverse ix).
Proof.
  revert p ix. induction dim as [|d ds IH] using rev_ind; intros p ix Hlen.
  - destruct ix; [|done]. cbn. lia.
  - destruct ix as [|x xs _] using rev_ind.
    { rewrite length_app in Hlen. cbn in Hlen. lia. }
    rewrite !length_app in Hlen. cbn in Hlen.
    rewrite scaled_offsets_snoc, !reverse_snoc.
    rewrite dot_snoc by (rewrite scaled_offsets_length; lia).
    rewrite IH by lia. cbn. lia.
Qed.

Lemma digits_length (rdim : list Z) (loc : Z) :
  length (digits rdim loc) = length rdim.
Proof.
  revert loc. induction rdim as [|d ds IH]; intros loc; [done|].
  cbn. by rewrite IH.
Qed.

Lemma rem_step (loc d : Z) : 0 ≤ loc → 0 < d → Z.rem loc d = loc mod d.
Proof. intros. apply Z.rem_mod_nonneg; lia. Qed.

Lemma quot_step (loc d : Z) :
  0 ≤ loc → 0 < d → Z.quot (loc - Z.rem loc d) d = loc / d.
Proof.
  intros Hl Hd. rewrite rem_step by done.
  pose proof (Z.div_mod loc d ltac:(lia)) as Hdm.
  pose proof (Z.div_pos loc d Hl Hd).
  replace (loc - loc mod d) with (loc / d * d) by lia.
  rewrite Z.quot_mul; lia.
Qed.

Lemma value_nonneg (rdim rix : list Z) :
  Forall2 (λ d x, 0 ≤ x < d) rdim rix → 0 ≤ value rdim rix.
Proof. induction 1; cbn; [done|nia]. Qed.

Lemma value_digits (rdim : list Z) (loc : Z) :
  Forall (λ d, 0 < d) rdim → 0 ≤ loc < product rdim →
  value rdim (digits rdim loc) = loc.
Proof.
  intros Hpos. revert loc.
  induction Hpos as [|d ds Hd _ IH]; intros loc Hloc.
  - rewrite product_nil in Hloc. cbn. lia.
  - rewrite product_cons in Hloc. cbn.
    rewrite quot_step, rem_step by lia.
    rewrite IH.
    + pose proof (Z.div_mod loc d ltac:(lia)). lia.
    + split; [apply Z.div_pos; lia|].
      apply Z.div_lt_upper_bound; lia.
Qed.

Lemma digits_value (rdim rix : list Z) :
  Forall2 (λ d x, 0 ≤ x < d) rdim rix → digits rdim (value rdim rix) = rix.
Proof.
  induction 1 as [|d x ds xs Hx Hrest IH]; [done|].
  pose proof (value_nonneg _ _ Hrest) as Hv. cbn.
  assert (Z.rem (x + d * value ds xs) d = x) as ->.
  { rewrite rem_step by nia.
    replace (x + d * value ds xs) with (x + value ds xs * d) by lia.
    rewrite Z.mod_add by lia.
    apply Z.mod_small; lia. }
  replace (x + d * value ds xs - x) with (value ds xs * d) by lia.
  rewrite Z.quot_mul by lia. by rewrite IH.
Qed.

Lemma digits_range (rdim : list Z) (loc : Z) :
  Forall (λ d, 0 < d) rdim → 0 ≤ loc →
  Forall2 (λ d x, 0 ≤ x < d) rdim (digits rdim loc).
Proof.
  intros Hpos. revert loc.
  induction Hpos as [|d ds Hd _ IH]; intros loc Hloc; cbn; constructor.
  - rewrite rem_step by lia. apply Z.mod_pos_bound; lia.
  - rewrite quot_step by lia. apply IH, Z.div_pos; lia.
Qed.

(** ** [location] and [index] *)

Section Coordinates.
Context {T : Type} `{Scalar T}.

Lemma location_loop (offs ix : list Z) (m : nat) (acc : Z) :
  (m ≤ length offs)%nat → (m ≤ length ix)%nat →
  for_down m (λ i loc,
    o ← vget offs i;
    x ← vget ix i;
    Ok (loc + o * x)) acc
  = Ok (acc + dot (take m offs) (take m ix)).
Proof.
  revert acc. induction m as [|m IH]; intros acc Ho Hx.
  - cbn. rewrite !take_0. cbn. f_equal. lia.
  - destruct (lookup_lt_is_Some_2 offs m) as [o Hom]; [lia|].
    destruct (lookup_lt_is_Some_2 ix m) as [x Hxm]; [lia|].
    cbn [for_down]. rewrite (vget_nat _ _ _ Hom). cbn.
    rewrite (vget_nat _ _ _ Hxm). cbn.
    rewrite IH by lia.
    rewrite (take_S_r _ _ _ Hom), (take_S_r _ _ _ Hxm).
    rewrite dot_snoc by (rewrite !length_take; lia).
    f_equal. lia.
Qed.

Lemma location_Ok (t : Tensor T) (ix : list Z) :
  wf t → length ix = length (dim t) →
  location t ix = Ok (value (reverse (dim t)) (reverse ix)).
Proof.
  intros (Hoffs & _ & _) Hlen. unfold location.
  assert (length (offsets t) = length (dim t)) as Hlo.
  { rewrite Hoffs. apply scaled_offsets_length. }
  rewrite location_loop by lia.
  rewrite <-Hlo at 1. rewrite <-Hlen, !firstn_all, Hoffs.
  unfold offsets_of. rewrite dot_scaled_offsets by done.
  f_equal. lia.
Qed.

Lemma index_loop (dim : list Z) (m : nat) (id : list Z) (loc : Z) :
  (m ≤ length dim)%nat → length id = length dim →
  Forall (λ d, d ≠ 0) (take m dim) →
  ∃ loc', for_down m (λ i '(loc, id),
      d ← vget dim i;
      ix ← imod loc d;
      loc' ← idiv (loc - ix) d;
      id' ← vset id i ix;
      Ok (loc', id')) (loc, id)
  = Ok (loc', reverse (digits (reverse (take m dim)) loc) ++ drop m id).
Proof.
  revert id loc. induction m as [|m IH]; intros id loc Hm Hlen Hnz.
  - exists loc. cbn. by rewrite take_0, drop_0.
  - destruct (lookup_lt_is_Some_2 dim m) as [d Hd]; [lia|].
    destruct (lookup_lt_is_Some_2 id m) as [o Ho]; [lia|].
    rewrite (take_S_r _ _ _ Hd) in Hnz.
    apply Forall_app in Hnz as [Hnz Hdnz].
    rewrite Forall_singleton in Hdnz.
    cbn [for_down]. rewrite (vget_nat _ _ _ Hd). cbn.
    rewrite imod_nz by done. cbn. rewrite idiv_nz by done. cbn.
    rewrite vset_nat by lia. cbn.
    destruct (IH (<[m:=Z.rem loc d]> id) (Z.quot (loc - Z.rem loc d) d))
      as [loc' ->]; [lia|by rewrite length_insert|done|].
    exists loc'. rewrite (take_S_r _ _ _ Hd), reverse_snoc. cbn [digits].
    rewrite reverse_cons, <-app_assoc.
    rewrite drop_insert_ge by lia. rewrite (drop_S _ _ _ Ho).
    by rewrite Nat.sub_diag.
Qed.

Lemma index_Ok (t : Tensor T) (loc : Z) :
  Forall (λ d, d ≠ 0) (dim t) →
  index t loc = Ok (reverse (digits (reverse (dim t)) loc)).
Proof.
  intros Hnz. unfold index.
  destruct (index_loop (dim t) (length (dim t))
              (replicate (length (dim t)) 0) loc) as [loc' ->];
    [lia|by rewrite length_replicate|by rewrite firstn_all|].
  cbn. rewrite firstn_all, drop_ge by (rewrite length_replicate; lia).
  by rewrite app_nil_r.
Qed.

Lemma positive_nonzero (l : list Z) :
  Forall (λ d, 0 < d) l → Forall (λ d, d ≠ 0) l.
Proof. intros Hl. eapply Forall_impl; [done|]. intros d; cbn; lia. Qed.

End Coordinates.

(** ** Counting over ranges of flat offsets *)

Lemma filter_ext_Forall {A} (P1 P2 : A → Prop)
    `{!∀ x, Decision (P1 x), !∀ x, Decision (P2 x)} (l : list A) :
  Forall (λ x, P1 x ↔ P2 x) l → filter P1 l = filter P2 l.
Proof.
  induction 1 as [|x l Hx _ IH]; [done|].
  rewrite !filter_cons, IH.
  destruct (decide (P1 x)), (decide (P2 x)); tauto.
Qed.

Lemma filter_none {A} (P : A → Prop) `{!∀ x, Decision (P x)} (l : list A) :
  Forall (λ x, ¬ P x) l → filter P l = [].
Proof.
  induction 1 as [|x l Hx _ IH]; [done|]. by rewrite filter_cons_False.
Qed.

Lemma length_filter_const {A} (P : Prop) `{!Decision P} (l : list A) :
  length (filter (λ _, P) l) = if decide P then length l else 0%nat.
Proof.
  induction l as [|x l IH]; [by destruct (decide P)|].
  rewrite filter_cons. destruct (decide P); cbn; by rewrite ?IH.
Qed.

Lemma Forall_seqZ (P : Z → Prop) (m n : Z) :
  (∀ i, m ≤ i < m + n → P i) → Forall P (seqZ m n).
Proof. intros HP. apply Forall_forall. intros i Hi%elem_of_seqZ. auto. Qed.

(** A predicate of the quotient is constant on each block of [d]
    consecutive offsets. *)
Lemma count_blocks (Q : Z → Prop) `{!∀ q, Decision (Q q)} (d : Z) (n : nat) :
  0 < d →
  length (filter (λ i, Q (i / d)) (seqZ 0 (d * Z.of_nat n)))
  = (Z.to_nat d * length (filter Q (seqZ 0 (Z.of_nat n))))%nat.
Proof.
  intros Hd. induction n as [|n IH].
  - rewrite !seqZ_nil by lia. cbn. lia.
  - replace (d * Z.of_nat (S n)) with (d * Z.of_nat n + d) by lia.
    rewrite seqZ_app, seqZ_S, !filter_app, !length_app, IH by lia.
    rewrite (filter_ext_Forall _ (λ _, Q (Z.of_nat n)) (seqZ _ d)).
    + rewrite length_filter_const, length_seqZ, filter_cons, filter_nil.
      rewrite !Z.add_0_l. destruct (decide (Q (Z.of_nat n))); cbn; lia.
    + apply Forall_seqZ. intros i Hi.
      replace (i / d) with (Z.of_nat n); [done|].
      apply (Z.div_unique i d _ (i - d * Z.of_nat n)); lia.
Qed.

(** Each block holds exactly one multiple of [d]. *)
Lemma count_multiples (d : Z) (n : nat) :
  0 < d →
  length (filter (λ i, i `mod` d = 0) (seqZ 0 (d * Z.of_nat n))) = n.
Proof.
  intros Hd. induction n as [|n IH].
  - by rewrite seqZ_nil by lia.
  - replace (d * Z.of_nat (S n)) with (d * Z.of_nat n + d) by lia.
    rewrite seqZ_app, filter_app, length_app, IH by lia.
    rewrite (seqZ_cons _ d) by lia. rewrite filter_cons_True.
    2:{ cbn. rewrite Z.add_0_l, Z.mul_comm. apply Z.mod_mul. lia. }
    rewrite filter_none; [cbn; lia|].
    apply Forall_seqZ. intros i Hi Hmod.
    pose proof (Z.div_mod i d ltac:(lia)) as Hdm. rewrite Hmod in Hdm.
    assert (Z.of_nat n < i / d) by nia.
    assert (i / d < Z.of_nat n + 1) by nia. lia.
Qed.

(** The offsets below the number of elements whose digit at position [ax]
    is 0 are one in [d] of all, [d] the extent at that position. *)
Lemma count_zero_digit (rdim : list Z) (ax : nat) (d : Z) :
  Forall (λ d, 0 < d) rdim → rdim !! ax = Some d →
  Z.of_nat (length (filter (λ i, digits rdim i !! ax = Some 0)
                      (seqZ 0 (product rdim)))) * d
  = product rdim.
Proof.
  intros Hpos. revert ax.
  induction Hpos as [|d0 ds Hd0 Hds IH]; intros ax Hax; [done|].
  pose proof (product_pos _ Hds) as HP.
  rewrite product_cons.
  replace (product ds) with (Z.of_nat (Z.to_nat (product ds))) at 1 by lia.
  destruct ax as [|ax]; simplify_eq/=.
  - rewrite (filter_ext_Forall _ (λ i, i `mod` d = 0)).
    + rewrite count_multiples by done. lia.
    + apply Forall_seqZ. intros i Hi.
      rewrite rem_step by lia. split; [by intros [= ?]|by intros ->].
  - rewrite (filter_ext_Forall _ (λ i, digits ds (i / d0) !! ax = Some 0)).
    + pose proof (count_blocks (λ q, digits ds q !! ax = Some 0)
                    d0 (Z.to_nat (product ds)) Hd0) as Hcb.
      cbn beta in Hcb. rewrite Hcb.
      rewrite Z2Nat.id by lia. specialize (IH _ Hax). nia.
    + apply Forall_seqZ. intros i Hi. by rewrite quot_step by lia.
Qed.

(** ** [plane] *)

Lemma vget_reverse {A} (l : list A) (ax : nat) (x : A) :
  l !! ax = Some x →
  vget (reverse l) (Z.of_nat (length l) - 1 - Z.of_nat ax) = Ok x.
Proof.
  intros Hx. pose proof (lookup_lt_Some _ _ _ Hx).
  apply vget_Ok. split; [lia|].
  rewrite reverse_lookup by lia. rewrite <-Hx. f_equal. lia.
Qed.

Lemma wf_offsets_length {T} (t : Tensor T) :
  wf t → length (offsets t) = length (dim t).
Proof. intros (-> & _ & _). apply scaled_offsets_length. Qed.

Section Plane.
Context {T : Type} `{Scalar T}.

(** The coordinate of the flat offset [i] on the axis [axis] counted from
    the right, as [plane] reads it: [index(i)[dim.size()-1-axis]]. *)
Lemma index_axis (t : Tensor T) (ax : nat) (i : Z) :
  Forall (λ d, d ≠ 0) (dim t) → (ax < length (dim t))%nat →
  ∃ c, digits (reverse (dim t)) i !! ax = Some c ∧
    (id ← index t i; vget id (ndim t - 1 - Z.of_nat ax)) = Ok c.
Proof.
  intros Hnz Hax.
  destruct (lookup_lt_is_Some_2 (digits (reverse (dim t)) i) ax) as [c Hc].
  { by rewrite digits_length, length_reverse. }
  exists c. split; [done|]. rewrite index_Ok by done. cbn.
  rewrite <-(vget_reverse _ _ _ Hc). f_equal.
  rewrite digits_length, length_reverse. unfold ndim. lia.
Qed.

Lemma plane_loop (t : Tensor T) (ax : nat) (k o : Z) (n : nat) (i0 : Z)
    (locs : list Z) :
  Forall (λ d, d ≠ 0) (dim t) → (ax < length (dim t))%nat →
  vget (offsets t) (ndim t - 1 - Z.of_nat ax) = Ok o →
  for_up n i0 (λ i locs,
    id ← index t i;
    c ← vget id (ndim t - 1 - Z.of_nat ax);
    if decide (c = 0) then
      o ← vget (offsets t) (ndim t - 1 - Z.of_nat ax);
      Ok (locs ++ [i + k * o])
    else Ok locs) locs
  = Ok (locs ++ ((λ i, i + k * o) <$>
          filter (λ i, digits (reverse (dim t)) i !! ax = Some 0)
            (seqZ i0 (Z.of_nat n)))).
Proof.
  intros Hnz Hax Ho.
  match goal with |- for_up _ _ ?b _ = _ => set (body := b) end.
  assert (∀ i locs, body i locs
    = Ok (if decide (digits (reverse (dim t)) i !! ax = Some 0)
          then locs ++ [i + k * o] else locs)) as Hstep.
  { intros i l. unfold body.
    destruct (index_axis t ax i Hnz Hax) as (c & Hc & Hrun).
    destruct (index t i) as [id|e]; [|done]. cbn in Hrun |- *.
    rewrite Hrun, Hc. cbn. destruct (decide (c = 0)) as [->|Hc0].
    - rewrite Ho. cbn. by rewrite decide_True.
    - rewrite decide_False; [done|]. by intros [= ?]. }
  clearbody body. revert i0 locs. induction n as [|n IH]; intros i0 locs.
  - cbn. by rewrite app_nil_r.
  - rewrite for_up_S, Hstep, bind_Ok, seqZ_cons by lia.
    replace (Z.pred (Z.of_nat (S n))) with (Z.of_nat n) by lia.
    replace (Z.succ i0) with (i0 + 1) by lia.
    rewrite IH, filter_cons. destruct (decide _); [|done].
    by rewrite fmap_cons, <-app_assoc.
Qed.

Lemma plane_Ok (t : Tensor T) (axis k : Z) :
  wf t → positive_dims t → 0 ≤ axis < ndim t →
  ∃ o, vget (offsets t) (ndim t - 1 - axis) = Ok o ∧
    plane t axis k
    = Ok ((λ i, i + k * o) <$>
        filter (λ i, digits (reverse (dim t)) i !! Z.to_nat axis = Some 0)
          (seqZ 0 (nelem t))).
Proof.
  intros Hwf Hpos Hax.
  remember (Z.to_nat axis) as ax eqn:Heq.
  assert (axis = Z.of_nat ax) as -> by lia. clear Heq.
  pose proof (wf_offsets_length t Hwf) as Hlen. unfold ndim in Hax.
  destruct (lookup_lt_is_Some_2 (offsets t)
              (Z.to_nat (ndim t - 1 - Z.of_nat ax))) as [o Ho].
  { unfold ndim. lia. }
  assert (vget (offsets t) (ndim t - 1 - Z.of_nat ax) = Ok o) as Hget.
  { apply vget_Ok. split; [unfold ndim; lia|done]. }
  destruct Hwf as (_ & Hn & _). pose proof (product_pos _ Hpos).
  exists o. split; [done|]. unfold plane, reserve.
  rewrite decide_False, bind_Ok by lia.
  rewrite (plane_loop t ax k o) by
    (try apply positive_nonzero; try done; lia).
  rewrite Z2Nat.id by lia. done.
Qed.

End Plane.

(** ** Coordinates and planes: the theorems *)

Section Layout.
Context {T : Type} `{Scalar T}.

(** C5. On a tensor with positive dims, [location] and [index] are inverse
    to each other: [location(index(x)) == x] for every flat offset [x] in
    [0, nelem), and [index(location(c)) == c] for every coordinate tuple
    [c] of length rank with [c[i]] in [0, dim[i]). *)
Theorem location_index_inverse (t : Tensor T) :
  wf t → positive_dims t →
  (∀ x, 0 ≤ x < nelem t → (c ← index t x; location t c) = Ok x) ∧
  (∀ c, Forall2 (λ x d, 0 ≤ x < d) c (dim t) →
        (l ← location t c; index t l) = Ok c).
Proof.
  intros Hwf Hpos. pose proof (positive_nonzero _ Hpos) as Hnz. split.
  - intros x Hx. rewrite index_Ok by done. cbn.
    rewrite location_Ok
      by (rewrite ?length_reverse, ?digits_length, ?length_reverse; done).
    rewrite reverse_involutive. f_equal. apply value_digits.
    + by apply Forall_reverse.
    + destruct Hwf as (_ & Hn & _). by rewrite product_reverse, <-Hn.
  - intros c Hc. rewrite location_Ok by (by apply Forall2_length in Hc).
    cbn. rewrite index_Ok by done. f_equal.
    rewrite digits_value; [apply reverse_involutive|].
    by apply Forall2_reverse, Forall2_flip.
Qed.

(** C7. On a tensor with positive dims, for every axis counted from the
    right, [plane(axis)] has exactly [nelem / dim[rank-1-axis]] entries:
    the flat offsets, in increasing order, of the elements whose
    coordinate on that axis is 0, one for each line along the axis. *)
Theorem plane_length (t : Tensor T) (axis : Z) :
  wf t → positive_dims t → 0 ≤ axis < ndim t →
  ∃ locs d,
    plane t axis 0 = Ok locs ∧
    vget (dim t) (ndim t - 1 - axis) = Ok d ∧
    Z.of_nat (length locs) = nelem t / d ∧
    locs = filter
      (λ i, (id ← index t i; vget id (ndim t - 1 - axis)) = Ok 0)
      (seqZ 0 (nelem t)).
Proof.
  intros Hwf Hpos Hax.
  destruct (plane_Ok t axis 0 Hwf Hpos Hax) as (o & _ & Hplane).
  pose proof (positive_nonzero _ Hpos) as Hnz.
  unfold ndim in Hax.
  destruct (lookup_lt_is_Some_2 (reverse (dim t)) (Z.to_nat axis))
    as [d Hd]; [rewrite length_reverse; lia|].
  exists (filter (λ i, digits (reverse (dim t)) i !! Z.to_nat axis = Some 0)
            (seqZ 0 (nelem t))), d.
  split_and!.
  - rewrite Hplane. f_equal.
    rewrite (list_fmap_ext _ id); [apply list_fmap_id|]. intros; cbn; lia.
  - replace axis with (Z.of_nat (Z.to_nat axis)) by lia.
    rewrite <-(vget_reverse _ _ _ Hd), reverse_involutive, length_reverse.
    done.
  - pose proof (count_zero_digit _ _ _
      (proj2 (Forall_reverse _ _) Hpos) Hd) as Hcount.
    destruct Hwf as (_ & Hn & _).
    rewrite product_reverse, <-Hn in Hcount.
    assert (0 < d).
    { eapply (Forall_lookup_1 _ (reverse (dim t))); [|done].
      by apply Forall_reverse. }
    apply Z.div_unique_exact; lia.
  - apply filter_ext_Forall, Forall_seqZ. intros i _.
    destruct (index_axis t (Z.to_nat axis) i Hnz) as (c & Hc & Hrun); [lia|].
    rewrite Z2Nat.id in Hrun by lia. rewrite Hc, Hrun.
    split; by intros [= ->].
Qed.

End Layout.

Lemma example235_filled : fill_sequence zeros235 = (example235, Ok tt).
Proof. done. Qed.

Lemma example235_wf : wf example235.
Proof. by split_and!. Qed.

Lemma example235_positive : positive_dims example235.
Proof. repeat constructor. Qed.

Lemma location_index_inverse_witness :
  (c ← index example235 28; location example235 c) = Ok 28 ∧
  (l ← location example235 [1; 2; 3]; index example235 l) = Ok [1; 2; 3].
Proof.
  destruct (location_index_inverse example235
              example235_wf example235_positive) as [Hx Hc].
  split; [apply Hx; cbn; lia|apply Hc; repeat constructor; lia].
Defined.

Lemma plane_length_witness :
  ∃ locs d,
    plane example235 0 0 = Ok locs ∧
    vget (dim example235) (ndim example235 - 1 - 0) = Ok d ∧
    Z.of_nat (length locs) = nelem example235 / d ∧
    locs = filter
      (λ i, (id ← index example235 i;
             vget id (ndim example235 - 1 - 0)) = Ok 0)
      (seqZ 0 (nelem example235)).
Proof.
  apply (plane_length example235 0 example235_wf example235_positive).
  unfold ndim. cbn. lia.
Defined.

(** ** In-place operations and the shape *)

Create HintDb frame.

Section Frame.
Context {T : Type} `{Scalar T}.

Lemma same_shape_refl (t : Tensor T) : same_shape t t.
Proof. by split_and!. Qed.

Lemma same_shape_trans (t1 t2 t3 : Tensor T) :
  same_shape t1 t2 → same_shape t2 t3 → same_shape t1 t3.
Proof. unfold same_shape. intros (?&?&?&?) (?&?&?&?). split_and!; congruence. Qed.

Lemma same_shape_set_vec (t : Tensor T) (v : list T) :
  length v = length (vec t) → same_shape t (set_vec t v).
Proof. intros Hlen. by split_and!. Qed.

(** The class invariant only speaks of what [same_shape] fixes. *)
Lemma same_shape_wf (t t' : Tensor T) : wf t → same_shape t t' → wf t'.
Proof.
  unfold wf, same_shape. intros (?&?&?) (?&?&?&?). split_and!; congruence.
Qed.

Lemma keeps_ret {A} (a : A) : keeps_shape (mret a : ST T A).
Proof. intros t. apply same_shape_refl. Qed.

Lemma keeps_lift {A} (r : result A) : keeps_shape (st_lift (T:=T) r).
Proof. intros t. apply same_shape_refl. Qed.

Lemma keeps_get : keeps_shape (st_get (T:=T)).
Proof. intros t. apply same_shape_refl. Qed.

Lemma keeps_assert (c : bool) : keeps_shape (st_assert (T:=T) c).
Proof. intros t. apply same_shape_refl. Qed.

Lemma keeps_read (i : Z) : keeps_shape (st_read (T:=T) i).
Proof. intros t. apply same_shape_refl. Qed.

Lemma keeps_write (i : Z) (x : T) : keeps_shape (st_write i x).
Proof.
  intros t. unfold st_write, vset. case_decide; cbn.
  - apply same_shape_set_vec, length_insert.
  - apply same_shape_refl.
Qed.

Lemma keeps_bind {A B} (m : ST T A) (f : A → ST T B) :
  keeps_shape m → (∀ a, keeps_shape (f a)) → keeps_shape (m ≫= f).
Proof.
  intros Hm Hf t. specialize (Hm t). unfold mbind, ST_bind.
  destruct (m t) as [t' [a|e]]; cbn in *; [|done].
  eapply same_shape_trans; [done|apply Hf].
Qed.

Lemma keeps_for_up {St} (n : nat) (i : Z) (body : Z → St → ST T St) (s : St) :
  (∀ i s, keeps_shape (body i s)) → keeps_shape (st_for_up n i body s).
Proof.
  intros Hbody. revert i s. induction n as [|n IH]; intros i s; cbn.
  - apply keeps_ret.
  - apply keeps_bind; [apply Hbody|]. intros s'. apply IH.
Qed.

Lemma std_transform2_length (op : T → T → T) (xs ys : list T) :
  length (std_transform2 op xs ys).1 = length xs.
Proof.
  revert ys. induction xs as [|x xs IH]; intros [|y ys]; cbn; try done.
  specialize (IH ys). destruct (std_transform2 op xs ys). cbn in *.
  by rewrite IH.
Qed.

Lemma keeps_transform2 (op : T → T → T) (ys : list T) :
  keeps_shape (st_transform2 op ys).
Proof.
  intros t. unfold st_transform2.
  pose proof (std_transform2_length op (vec t) ys) as Hlen.
  destruct (std_transform2 op (vec t) ys). cbn in *.
  by apply same_shape_set_vec.
Qed.

Lemma keeps_transform1 (f : T → T) : keeps_shape (st_transform1 f).
Proof. intros t. apply same_shape_set_vec, length_map. Qed.

#[local] Hint Resolve keeps_ret keeps_lift keeps_get keeps_assert keeps_read
  keeps_write keeps_bind keeps_for_up keeps_transform1 keeps_transform2
  : frame.

Lemma keeps_transform_dim (loc axis : Z) (f : T → T → T) (w : list T) :
  keeps_shape (transform_dim loc axis f w).
Proof. unfold transform_dim. auto 20 with frame. Qed.

Lemma keeps_transform (axis : Z) (f : T → T → T) (w : list T) :
  keeps_shape (transform axis f w).
Proof.
  unfold transform. pose proof keeps_transform_dim. auto 20 with frame.
Qed.

Lemma keeps_compound2 (op : T → T → T) (rhs : Tensor T) :
  keeps_shape (t ← st_get;
               _ ← st_assert (bool_decide (dim t = dim rhs));
               st_transform2 op (vec rhs)).
Proof. auto with frame. Qed.

(** C9. Every in-place operation, whatever its outcome, leaves [dim],
    [offsets] and [nelem] of the tensor as they were and keeps the size of
    [vec]: only element values change. *)
Theorem inplace_keeps_shape (t : Tensor T) :
  (∀ axis f w, same_shape t (transform axis f w t).1) ∧
  (∀ loc axis f w, same_shape t (transform_dim loc axis f w t).1) ∧
  (∀ rhs, same_shape t (op_add_assign rhs t).1) ∧
  (∀ rhs, same_shape t (op_sub_assign rhs t).1) ∧
  (∀ rhs, same_shape t (op_mul_assign rhs t).1) ∧
  (∀ s, same_shape t (op_add_assign_s s t).1) ∧
  (∀ s, same_shape t (op_sub_assign_s s t).1) ∧
  (∀ s, same_shape t (op_mul_assign_s s t).1) ∧
  (∀ s, same_shape t (op_div_assign_s s t).1).
Proof.
  split_and!; intros.
  - apply keeps_transform.
  - apply keeps_transform_dim.
  - apply keeps_compound2.
  - apply keeps_compound2.
  - apply keeps_compound2.
  - apply keeps_transform1.
  - apply keeps_transform1.
  - apply keeps_transform1.
  - apply keeps_transform1.
Qed.

End Frame.

(** ** Elementwise arithmetic *)

Section Arithmetic.
Context {T : Type} `{Scalar T}.

Lemma run_transform1 (f : T → T) (t : Tensor T) :
  run (st_transform1 f) t = Ok (set_vec t (map f (vec t))).
Proof. done. Qed.

(** What [scalar - tensor] computes: every element minus the scalar. *)
Lemma s_op_sub_elements (s : T) (t : Tensor T) :
  s_op_sub s t = Ok (set_vec t (map (λ x, ssub x s) (vec t))).
Proof. done. Qed.

(** C6. When the [dim] sequences of [a] and [b] differ, [a += b],
    [a -= b], [a *= b] and [a + b], [a - b], [a * b] all stop at their
    assertion; the compound forms leave [a] exactly as it was ([b] is
    only read, and the pure forms work on a copy). *)
Theorem shape_mismatch_fails (a b : Tensor T) :
  dim a ≠ dim b →
  op_add_assign b a = (a, Err AssertionFailed) ∧
  op_sub_assign b a = (a, Err AssertionFailed) ∧
  op_mul_assign b a = (a, Err AssertionFailed) ∧
  op_add a b = Err AssertionFailed ∧
  op_sub a b = Err AssertionFailed ∧
  op_mul a b = Err AssertionFailed.
Proof.
  intros Hne.
  unfold op_add_assign, op_sub_assign, op_mul_assign, op_add, op_sub, op_mul.
  unfold mbind, ST_bind, st_get, st_assert, st_lift.
  rewrite bool_decide_false by done. by rewrite !decide_False by done.
Qed.

End Arithmetic.

Lemma shape_mismatch_fails_witness :
  op_add_assign line123 line12 = (line12, Err AssertionFailed) ∧
  op_sub_assign line123 line12 = (line12, Err AssertionFailed) ∧
  op_mul_assign line123 line12 = (line12, Err AssertionFailed) ∧
  op_add line12 line123 = Err AssertionFailed ∧
  op_sub line12 line123 = Err AssertionFailed ∧
  op_mul line12 line123 = Err AssertionFailed.
Proof. apply (shape_mismatch_fails line12 line123). by vm_compute. Defined.

(** C2. [5 - t] for [t = [1, 2]] comes out as [t - 5 = [-4, -3]], where
    the specification asks for [[4, 3]]: the scalar-left difference is
    computed with the operands exchanged. *)
Theorem scalar_minus_tensor_reordered :
  s_op_sub 5 line12 = Ok (set_vec line12 [-4; -3]) ∧
  scalar_minus_tensor_spec 5 line12 = set_vec line12 [4; 3].
Proof. done. Qed.

(** C1. Along the line [1, 2, 3] with addition and the initial value 10,
    [accumulate_dim] returns 6, the fold seeded with 0, where the
    specification asks for 16, the fold seeded with the initial value. *)
Theorem accumulate_dim_ignores_initial :
  accumulate_dim line123 10 0 0 Z.add [] = Ok 6 ∧
  accumulate_dim_spec line123 10 0 0 Z.add [] = Ok 16.
Proof. done. Qed.

(** ** [max_dim] *)

Section MaxDim.
Context {T : Type} `{Scalar T}.

(** C10. [max_dim] starts by reading [vec[1]]: on a tensor of one element
    that read is outside the buffer, whatever the axis, and with two or
    more elements it is inside. *)
Theorem max_dim_reads_second_element (t : Tensor T) (axis : Z) :
  wf t →
  max_dim t axis = (v0 ← vget (vec t) 1; accumulate t v0 axis smax []) ∧
  (nelem t = 1 →
     vget (vec t) 1 = Err OutOfBounds ∧ max_dim t axis = Err OutOfBounds) ∧
  (2 ≤ nelem t → is_ok (vget (vec t) 1) = true).
Proof.
  intros (_ & _ & Hlen). split_and!; [done| |].
  - intros Hn. unfold max_dim. by rewrite vget_oob by lia.
  - intros Hn. destruct (lookup_lt_is_Some_2 (vec t) 1) as [x Hx]; [lia|].
    assert (vget (vec t) 1 = Ok x) as -> by (by apply vget_Ok). done.
Qed.

End MaxDim.

Lemma single7_wf : wf single7.
Proof. by split_and!. Qed.

Lemma max_dim_reads_second_element_witness :
  max_dim single7 0
    = (v0 ← vget (vec single7) 1; accumulate single7 v0 0 smax []) ∧
  (nelem single7 = 1 →
     vget (vec single7) 1 = Err OutOfBounds ∧
     max_dim single7 0 = Err OutOfBounds) ∧
  (2 ≤ nelem single7 → is_ok (vget (vec single7) 1) = true).
Proof. apply (max_dim_reads_second_element single7 0 single7_wf). Defined.

(** ** Construction and the requested shape *)

(** The shape [2, 0, 3] has a dimension that is not positive, and
    construction succeeds on it, with no element. *)
Lemma construct_zero_dim_accepted :
  Exists (λ d, d ≤ 0) [2; 0; 3] ∧
  Tensor_new32 (T:=Z) [2; 0; 3] = Ok (mkTensor [0; 3; 1] 0 [2; 0; 3] []).
Proof. split; [|done]. apply Exists_cons_tl, Exists_cons_hd. lia. Qed.

Section Shapes.
Context {T : Type} `{Scalar T}.

(** C4, as the constructor does it. Construction looks at no single
    dimension. On every requested shape whose extents and running products
    are representable as [int]: when the product of the requested
    dimensions is negative the buffer cannot be sized and no Tensor is
    produced; otherwise, also with a dimension that is 0 or negative, the
    Tensor is produced with the requested [dim], [nelem] their product, the
    suffix products as [offsets] and [nelem] zero elements. *)
Theorem construct_checks_product_only (shape : list Z) :
  int_shape shape →
  (product shape < 0 → Tensor_new32 (T:=T) shape = Err LengthError) ∧
  (0 ≤ product shape →
   Tensor_new32 (T:=T) shape
   = Ok (mkTensor (offsets_of shape) (product shape) shape
           (replicate (Z.to_nat (product shape)) szero))).
Proof.
  intros Hint. rewrite Tensor_new32_ideal by done.
  split; [apply Tensor_new_Err|apply Tensor_new_Ok].
Qed.

End Shapes.

Lemma construct_checks_product_only_witness :
  Tensor_new32 (T:=Z) [-1; 2] = Err LengthError ∧
  Tensor_new32 (T:=Z) [-1; -1] = Ok (mkTensor [-1; 1] 1 [-1; -1] [0]).
Proof.
  assert (int_shape [-1; 2]) as Hint1 by compute_done.
  assert (int_shape [-1; -1]) as Hint2 by compute_done.
  split.
  - apply (proj1 (construct_checks_product_only [-1; 2] Hint1)).
    by vm_compute.
  - assert (0 ≤ product [-1; -1]) as Hp by (by vm_compute).
    exact (proj2 (construct_checks_product_only [-1; -1] Hint2) Hp).
Defined.

(** Outside of the [int] shapes the product is the wrapped one: on
    [-65536, 65536] it is 0, and the constructor returns an empty tensor. *)
Lemma construct_wrapped_product :
  product [-65536; 65536] < int_min ∧
  Tensor_new32 (T:=Z) [-65536; 65536]
  = Ok (mkTensor [65536; 1] 0 [-65536; 65536] []).
Proof. by vm_compute. Qed.

(** ** [transform_dim] on the innermost axis *)

Lemma vget_at {A} (v : list A) (i : Z) (x : A) :
  0 ≤ i → v !! Z.to_nat i = Some x → vget v i = Ok x.
Proof. intros. by apply vget_Ok. Qed.

Lemma vset_at {A} (v : list A) (i : Z) (x : A) :
  0 ≤ i < Z.of_nat (length v) → vset v i x = Ok (<[Z.to_nat i := x]> v).
Proof. intros. unfold vset. by rewrite decide_True. Qed.

Lemma offsets_of_snoc (ds : list Z) (d : Z) :
  offsets_of (ds ++ [d]) = scaled_offsets d ds ++ [1].
Proof.
  unfold offsets_of. rewrite scaled_offsets_snoc. do 2 f_equal. lia.
Qed.

Lemma st_bind_get {T A} (f : Tensor T → ST T A) (t : Tensor T) :
  (st_get ≫= f) t = f t t.
Proof. done. Qed.

Lemma st_bind_lift_Ok {T A B} (a : A) (f : A → ST T B) (t : Tensor T) :
  (st_lift (Ok a) ≫= f) t = f a t.
Proof. done. Qed.

Lemma st_bind_assert_true {T A} (f : unit → ST T A) (t : Tensor T) :
  (st_assert true ≫= f) t = f tt t.
Proof. done. Qed.

Lemma st_bind_run {T A B} (m : ST T A) (f : A → ST T B) (t t' : Tensor T)
    (a : A) :
  m t = (t', Ok a) → (m ≫= f) t = f a t'.
Proof. intros Hm. unfold mbind, ST_bind. by rewrite Hm. Qed.

(** One turn of the loop of [transform_dim]. *)
Lemma transform_dim_step {T} (f : T → T → T) (w : list T) (off : Z) (n : nat)
    (count i : Z) (t : Tensor T) (x wc : T) :
  vget (vec t) i = Ok x → vget w count = Ok wc →
  st_for_up (S n) count (λ count i,
      x ← st_read i;
      wc ← st_lift (vget w count);
      _ ← st_write i (f x wc);
      mret (i + off)) i t
  = st_for_up n (count + 1) (λ count i,
      x ← st_read i;
      wc ← st_lift (vget w count);
      _ ← st_write i (f x wc);
      mret (i + off)) (i + off)
      (set_vec t (<[Z.to_nat i := f x wc]> (vec t))).
Proof.
  intros Hx Hw. cbn [st_for_up].
  unfold mbind at 1. unfold ST_bind at 1.
  unfold mbind at 1. unfold ST_bind at 1.
  unfold st_read at 1. rewrite Hx.
  unfold mbind at 1. unfold ST_bind at 1.
  unfold st_lift at 1. rewrite Hw.
  unfold mbind at 1. unfold ST_bind at 1.
  unfold st_write at 1.
  apply vget_Ok in Hx as [Hi Hx%lookup_lt_Some].
  rewrite vset_at by lia. done.
Qed.

(** In the shape [2, 3, 5] the innermost axis has five elements: three
    weights do not pass the assertion of [transform_dim], and the stored
    values stay 0. In the shape [2, 5, 3], where the innermost axis has
    three, the call goes through and leaves [1, 2, 3]: every element is
    combined with its own weight, nothing is carried along the line. The
    same holds along the axis of three elements of [2, 3, 5], axis 1, at
    the flat offsets 0, 5 and 10. *)
Lemma transform_dim_example_fails :
  Tensor_new [2; 3; 5] = Ok zeros235 ∧
  transform_dim 0 0 smoothing [1; 2; 3] zeros235
    = (zeros235, Err AssertionFailed) ∧
  take 3 (vec (transform_dim 0 0 smoothing [1; 2; 3] zeros235).1)
    ≠ [1; 4; 11] ∧
  Tensor_new [2; 5; 3] = Ok zeros253 ∧
  take 3 (vec (transform_dim 0 0 smoothing [1; 2; 3] zeros253).1)
    = [1; 2; 3] ∧
  (λ i, vec (transform_dim 0 1 smoothing [1; 2; 3] zeros235).1 !! i)
    <$> [0; 5; 10]%nat = [Some 1; Some 2; Some 3].
Proof. by vm_compute. Qed.

(** C3, as [transform_dim] does it, for a shape whose innermost axis has
    three elements. With the first three stored values 0, [transform_dim]
    from flat offset 0 on axis 0 with [f(acc, w) = acc*2 + w] and the
    weights [1, 2, 3] leaves them as [f(0,1), f(0,2), f(0,3)] = [1, 2, 3],
    in that order, and touches nothing else. *)
Theorem transform_dim_innermost_three (t : Tensor Z) (rest : list Z) :
  wf t → last (dim t) = Some 3 → vec t = 0 :: 0 :: 0 :: rest →
  transform_dim 0 0 smoothing [1; 2; 3] t
  = (set_vec t (1 :: 2 :: 3 :: rest), Ok tt).
Proof.
  intros (Hoffs & _ & _) [ds Hds]%last_Some Hvec.
  assert (vget (dim t) (ndim t - 1 - 0) = Ok 3) as Hd.
  { unfold ndim. rewrite Hds, length_app. cbn. apply vget_at; [lia|].
    replace (Z.to_nat _) with (length ds) by lia.
    by rewrite list_lookup_middle. }
  assert (vget (offsets t) (ndim t - 1 - 0) = Ok 1) as Ho.
  { unfold ndim. rewrite Hoffs, Hds, offsets_of_snoc, length_app. cbn.
    apply vget_at; [lia|].
    replace (Z.to_nat _) with (length (scaled_offsets 3 ds))
      by (rewrite scaled_offsets_length; lia).
    by rewrite list_lookup_middle. }
  unfold transform_dim. rewrite st_bind_get. cbn beta.
  rewrite Hd, st_bind_lift_Ok, bool_decide_true, st_bind_assert_true by done.
  rewrite Ho, st_bind_lift_Ok, st_bind_lift_Ok.
  change (Z.to_nat 3) with 3%nat.
  erewrite st_bind_run; [done|].
  rewrite (transform_dim_step _ _ _ _ _ _ _ 0 1) by (by rewrite ?Hvec).
  rewrite (transform_dim_step _ _ _ _ _ _ _ 0 2) by (by cbn; rewrite ?Hvec).
  rewrite (transform_dim_step _ _ _ _ _ _ _ 0 3) by (by cbn; rewrite ?Hvec).
  cbn. by rewrite Hvec.
Qed.

Lemma zeros253_wf : wf zeros253.
Proof. by split_and!. Qed.

Lemma transform_dim_innermost_three_witness :
  transform_dim 0 0 smoothing [1; 2; 3] zeros253
  = (set_vec zeros253 (1 :: 2 :: 3 :: replicate 27 0), Ok tt).
Proof.
  by apply (transform_dim_innermost_three zeros253 (replicate 27 0) zeros253_wf).
Defined.

(** ** [repeat_inner] *)

Lemma lookup_flat_map_replicate {A} (l : list A) (N i j : nat) :
  (j < N)%nat → flat_map (replicate N) l !! (i * N + j)%nat = l !! i.
Proof.
  intros Hj. revert i. induction l as [|x l IH]; intros i; cbn.
  - by rewrite !lookup_nil.
  - destruct i as [|i]; cbn.
    + rewrite lookup_app_l by (rewrite length_replicate; lia).
      by apply lookup_replicate_2.
    + rewrite lookup_app_r by (rewrite length_replicate; lia).
      rewrite length_replicate, <-IH. f_equal. lia.
Qed.

Lemma length_flat_map_replicate {A} (l : list A) (N : nat) :
  length (flat_map (replicate N) l) = (length l * N)%nat.
Proof.
  induction l as [|x l IH]; [done|]. cbn.
  rewrite length_app, length_replicate, IH. lia.
Qed.

Section Replication.
Context {T : Type} `{Scalar T}.

(** The inner loop: [m] copies of [x = vec[i]] written from [count] on,
    the buffer of [tout] split at [count] into what is written and what
    is still to be written. *)
Lemma repeat_inner_row (t tout : Tensor T) (i : Z) (x : T) (m : nat) (j0 : Z)
    (done todo : list T) :
  vget (vec t) i = Ok x → (m ≤ length todo)%nat →
  for_up m j0 (λ j '(tout, count),
      x ← vget (vec t) i;
      v' ← vset (vec tout) count x;
      Ok (set_vec tout v', count + 1))
    (set_vec tout (done ++ todo), Z.of_nat (length done))
  = Ok (set_vec tout (done ++ replicate m x ++ drop m todo),
        Z.of_nat (length done + m)).
Proof.
  intros Hx.
  match goal with |- _ → for_up _ _ ?b _ = _ => set (body := b) end.
  assert (∀ j done y todo,
    body j (set_vec tout (done ++ y :: todo), Z.of_nat (length done))
    = Ok (set_vec tout ((done ++ [x]) ++ todo),
          Z.of_nat (length (done ++ [x])))) as Hstep.
  { intros j dn y td. unfold body. rewrite Hx, bind_Ok. cbn [vec set_vec].
    rewrite vset_nat by (rewrite length_app; cbn; lia). rewrite bind_Ok.
    unfold set_vec. cbn [offsets nelem dim vec].
    rewrite length_app, Nat2Z.inj_add. cbn [length].
    rewrite <-app_assoc. cbn [app].
    replace (length dn) with (length dn + 0)%nat at 1 by lia.
    by rewrite insert_app_r. }
  clearbody body. revert j0 done todo.
  induction m as [|m IH]; intros j0 dn td Hm.
  - cbn. by rewrite drop_0, Nat.add_0_r.
  - destruct td as [|y td]; [cbn in Hm; lia|].
    rewrite for_up_S, Hstep, bind_Ok, IH by (cbn in Hm; lia).
    rewrite length_app, <-!app_assoc. cbn. do 3 f_equal. lia.
Qed.

(** The outer loop, over the elements [rows] of [vec] still to be copied. *)
Lemma repeat_inner_rows (t tout : Tensor T) (N : nat) (pre rows : list T)
    (done todo : list T) :
  vec t = pre ++ rows → (length rows * N ≤ length todo)%nat →
  for_up (length rows) (Z.of_nat (length pre)) (λ i s,
      for_up N 0 (λ j '(tout, count),
        x ← vget (vec t) i;
        v' ← vset (vec tout) count x;
        Ok (set_vec tout v', count + 1)) s)
    (set_vec tout (done ++ todo), Z.of_nat (length done))
  = Ok (set_vec tout (done ++ flat_map (replicate N) rows
                        ++ drop (length rows * N) todo),
        Z.of_nat (length done + length rows * N)).
Proof.
  revert pre done todo.
  induction rows as [|x rows IH]; intros pre dn td Hvec Hlen.
  - cbn. by rewrite drop_0, Nat.add_0_r.
  - cbn [length] in *. rewrite for_up_S.
    rewrite (repeat_inner_row t tout _ x) by
      (try (apply vget_nat; rewrite Hvec; by apply list_lookup_middle); lia).
    rewrite bind_Ok.
    replace (Z.of_nat (length pre) + 1) with (Z.of_nat (length (pre ++ [x])))
      by (rewrite length_app; cbn; lia).
    replace (length dn + N)%nat with (length (dn ++ replicate N x))
      by (by rewrite length_app, length_replicate).
    rewrite app_assoc.
    rewrite IH.
    + rewrite drop_drop, <-!app_assoc, length_app, length_replicate. cbn.
      rewrite <-app_assoc. do 3 f_equal; lia.
    + by rewrite Hvec, <-app_assoc.
    + rewrite length_drop. lia.
Qed.

Lemma repeat_inner_all (t : Tensor T) (N : nat) (offs : list Z) (ne : Z)
    (dm : list Z) (todo : list T) :
  (length (vec t) * N ≤ length todo)%nat →
  for_up (length (vec t)) 0 (λ i s,
      for_up N 0 (λ j '(tout, count),
        x ← vget (vec t) i;
        v' ← vset (vec tout) count x;
        Ok (set_vec tout v', count + 1)) s)
    (mkTensor offs ne dm todo, 0)
  = Ok (mkTensor offs ne dm
          (flat_map (replicate N) (vec t) ++ drop (length (vec t) * N) todo),
        Z.of_nat (length (vec t) * N)).
Proof.
  intros Hlen.
  exact (repeat_inner_rows t (mkTensor offs ne dm []) N [] (vec t) [] todo
           eq_refl Hlen).
Qed.

Lemma repeat_inner_Ok (t : Tensor T) (n : Z) :
  wf t → 0 ≤ nelem t → 0 ≤ n → int_shape (dim t ++ [n]) →
  repeat_inner t n
  = Ok (mkTensor (offsets_of (dim t ++ [n])) (nelem t * n) (dim t ++ [n])
          (flat_map (replicate (Z.to_nat n)) (vec t))).
Proof.
  intros (_ & Hn & Hlen) Hnelem Hpos Hint. unfold repeat_inner.
  assert (product (dim t ++ [n]) = nelem t * n) as Hprod.
  { rewrite product_app, product_cons, product_nil. lia. }
  rewrite Tensor_new32_ideal by done.
  rewrite Tensor_new_Ok by lia. rewrite bind_Ok, Hprod.
  replace (Z.to_nat (nelem t)) with (length (vec t)) by lia.
  rewrite repeat_inner_all by (rewrite length_replicate; nia).
  rewrite bind_Ok. rewrite drop_ge by (rewrite length_replicate; nia).
  by rewrite app_nil_r.
Qed.

(** The shape that [repeat_inner(n)] requests of the constructor. *)
Lemma repeat_inner_shape (t : Tensor T) (n : Z) :
  wf t → positive_dims t → nelem t ≤ int_max → in_int (nelem t * n) →
  int_shape (dim t ++ [n]).
Proof.
  intros (_ & Hnelem & _) Hpos Hmax Hn. rewrite Hnelem in *.
  by apply int_shape_snoc.
Qed.

(** C8. On a tensor with positive dims and for [n ≥ 1] with [nelem * n]
    representable as [int], [repeat_inner(n)] returns a tensor of shape
    [dim] with [n] appended, of [nelem * n] elements, in which the [n]
    elements at the flat offsets [i*n .. i*n + n - 1] are the element at
    [i] of the tensor it was called on; that tensor is only read (the
    member is [const]). *)
Theorem repeat_inner_copies (t : Tensor T) (n : Z) :
  wf t → positive_dims t → 1 ≤ n → nelem t * n ≤ int_max →
  ∃ tout,
    repeat_inner t n = Ok tout ∧ wf tout ∧
    dim tout = dim t ++ [n] ∧
    nelem tout = nelem t * n ∧
    Z.of_nat (length (vec tout)) = nelem t * n ∧
    ∀ i j, 0 ≤ i < nelem t → 0 ≤ j < n →
      ∃ x, vget (vec t) i = Ok x ∧ vget (vec tout) (i * n + j) = Ok x.
Proof.
  intros Hwf Hpos Hn Hmax. pose proof Hwf as (_ & Hnelem & Hlen).
  pose proof (product_pos _ Hpos) as Hprod.
  assert (int_shape (dim t ++ [n])) as Hint.
  { apply repeat_inner_shape; [done..|nia|unfold in_int, int_min; nia]. }
  eexists. split; [apply repeat_inner_Ok; [done|lia..|done]|].
  cbn [offsets nelem dim vec].
  assert (Z.of_nat (length (flat_map (replicate (Z.to_nat n)) (vec t)))
          = nelem t * n) as Hlen'.
  { rewrite length_flat_map_replicate. nia. }
  split_and!; [|done..|].
  - split_and!; cbn [offsets nelem dim vec]; [done| |done].
    rewrite product_app, product_cons, product_nil. lia.
  - intros i j Hi Hj.
    destruct (lookup_lt_is_Some_2 (vec t) (Z.to_nat i)) as [x Hx]; [lia|].
    exists x. split; [by apply vget_at; [lia|]|].
    apply vget_at; [nia|]. rewrite <-Hx.
    replace (Z.to_nat (i * n + j))
      with (Z.to_nat i * Z.to_nat n + Z.to_nat j)%nat by nia.
    apply lookup_flat_map_replicate. lia.
Qed.

End Replication.

Lemma repeat_inner_copies_witness :
  ∃ tout,
    repeat_inner example235 2 = Ok tout ∧ wf tout ∧
    dim tout = dim example235 ++ [2] ∧
    nelem tout = nelem example235 * 2 ∧
    Z.of_nat (length (vec tout)) = nelem example235 * 2 ∧
    ∀ i j, 0 ≤ i < nelem example235 → 0 ≤ j < 2 →
      ∃ x, vget (vec example235) i = Ok x ∧
           vget (vec tout) (i * 2 + j) = Ok x.
Proof.
  apply (repeat_inner_copies example235 2 example235_wf example235_positive).
  - lia.
  - by vm_compute.
Defined.

(** A tensor of three elements and [n = 1000000000 ≥ 1]: the product
    3000000000 is no [int], the [nelem] the constructor computes is
    negative, and no tensor is returned. *)
Lemma repeat_inner_large_count_fails :
  wf line123 ∧ positive_dims line123 ∧ 1 ≤ 1000000000 ∧
  int_max < nelem line123 * 1000000000 ∧
  repeat_inner line123 1000000000 = Err LengthError.
Proof.
  split_and!; [by split_and!|repeat constructor|lia|by vm_compute|].
  by vm_compute.
Qed.

(** ** [accumulate_dim] and its seed *)

Lemma vget_Err {A} (v : list A) (i : Z) (e : error) :
  vget v i = Err e → e = OutOfBounds.
Proof.
  unfold vget. destruct (decide (0 ≤ i)); [|by intros [= <-]].
  destruct (v !! Z.to_nat i); [done|by intros [= <-]].
Qed.

Section Accumulate.
Context {T : Type} `{Scalar T}.

(** The loop of [accumulate_dim], which carries the flat offset along,
    against the fold of the specification, which computes it from the
    step number. *)
Lemma accumulate_dim_loop (t : Tensor T) (loc o : Z) (op : T → T → T)
    (weights : list T) (n : nat) (c : Z) (v : T) :
  ('(_, v) ← for_up n c (λ count '(i, v),
      w ← (if decide (0 < Z.of_nat (length weights))
           then vget weights count else Ok sone);
      x ← vget (vec t) i;
      Ok (i + o, op v (smul w x))) (loc + c * o, v);
   Ok v)
  = for_up n c (λ count v,
      element ← vget (vec t) (loc + count * o);
      w ← (if decide (weights = []) then Ok sone else vget weights count);
      Ok (op v (smul w element))) v.
Proof.
  revert c v. induction n as [|n IH]; intros c v; [done|].
  rewrite !for_up_S. cbn beta iota.
  assert ((if decide (0 < Z.of_nat (length weights))
           then vget weights c else Ok sone)
          = (if decide (weights = []) then Ok sone else vget weights c))
    as ->.
  { destruct weights; [done|]. rewrite decide_True by (cbn; lia).
    by rewrite decide_False. }
  destruct (if decide (weights = []) then Ok sone else vget weights c)
    as [w|e] eqn:Hw;
    destruct (vget (vec t) (loc + c * o)) as [x|e'] eqn:Hx; cbn; try done.
  - replace (loc + c * o + o) with (loc + (c + 1) * o) by lia. apply IH.
  - apply vget_Err in Hx as ->. destruct (decide (weights = [])); [done|].
    by apply vget_Err in Hw as ->.
Qed.

(** With weights that pass the assertion, [accumulate_dim] is the fold of
    the specification started from 0, whatever initial value is passed. *)
Lemma accumulate_dim_seeded_zero (t : Tensor T) (v0 : T) (loc axis : Z)
    (op : T → T → T) (weights : list T) (d : Z) :
  vget (dim t) (ndim t - 1 - axis) = Ok d →
  weights = [] ∨ Z.of_nat (length weights) = d →
  accumulate_dim t v0 loc axis op weights
  = accumulate_dim_spec t szero loc axis op weights.
Proof.
  intros Hd Hw. unfold accumulate_dim, accumulate_dim_spec.
  assert ((if decide (Z.of_nat (length weights) = 0) then Ok ()
           else d ← vget (dim t) (ndim t - 1 - axis);
                if decide (Z.of_nat (length weights) = d) then Ok ()
                else Err AssertionFailed) = Ok ()) as ->.
  { destruct (decide (Z.of_nat (length weights) = 0)); [done|].
    rewrite Hd, bind_Ok. destruct Hw as [->|Hw]; [done|].
    by rewrite decide_True. }
  rewrite bind_Ok. cbn zeta. rewrite Hd, !bind_Ok.
  destruct (vget (offsets t) (ndim t - 1 - axis)) as [o|e]; [|done].
  rewrite !bind_Ok.
  pose proof (accumulate_dim_loop t loc o op weights (Z.to_nat d) 0 szero)
    as Hloop.
  rewrite Z.mul_0_l, Z.add_0_r in Hloop. exact Hloop.
Qed.

End Accumulate.

(** * Further properties of the members *)

(** ** More mixed-radix arithmetic *)

Lemma value_lt (rdim rix : list Z) :
  Forall2 (λ d x, 0 ≤ x < d) rdim rix → value rdim rix < product rdim.
Proof.
  induction 1 as [|d x ds xs Hx Hrest IH]; [done|].
  pose proof (value_nonneg _ _ Hrest). rewrite product_cons. cbn. nia.
Qed.

(** Changing one digit moves the number by the weight of its position. *)
Lemma value_insert (rdim rix : list Z) (a : nat) (x c : Z) :
  length rdim = length rix → rix !! a = Some x →
  value rdim (<[a:=c]> rix)
  = value rdim rix + (c - x) * product (take a rdim).
Proof.
  revert rix a. induction rdim as [|d ds IH]; intros [|y ys] a Hlen Ha;
    simplify_eq/=.
  destruct a as [|a]; simplify_eq/=.
  - rewrite product_nil. lia.
  - rewrite (IH ys a) by done. rewrite product_cons. lia.
Qed.

Lemma digits_range_insert (rdim rix : list Z) (a : nat) (d c : Z) :
  Forall2 (λ d x, 0 ≤ x < d) rdim rix → rdim !! a = Some d → 0 ≤ c < d →
  Forall2 (λ d x, 0 ≤ x < d) rdim (<[a:=c]> rix).
Proof.
  intros Hall. revert a. induction Hall as [|d0 x ds xs Hx Hrest IH];
    intros [|a] Ha Hc; simplify_eq/=; constructor; auto.
Qed.

Lemma scaled_offsets_lookup (p : Z) (dim : list Z) (i : nat) :
  (i < length dim)%nat →
  scaled_offsets p dim !! i = Some (p * product (drop (S i) dim)).
Proof.
  revert i. induction dim as [|d ds IH]; intros [|i] Hi; cbn in *;
    try lia; [done|].
  apply IH. lia.
Qed.

(** [offsets[dim.size()-1-axis]] is the product of the extents of the
    axes inside [axis]. *)
Lemma offsets_axis {T} (t : Tensor T) (ax : nat) :
  wf t → (ax < length (dim t))%nat →
  vget (offsets t) (ndim t - 1 - Z.of_nat ax)
  = Ok (product (take ax (reverse (dim t)))).
Proof.
  intros (Hoffs & _ & _) Hax. unfold ndim. apply vget_at; [lia|].
  rewrite Hoffs. unfold offsets_of.
  rewrite scaled_offsets_lookup by lia.
  rewrite take_reverse, product_reverse, Z.mul_1_l.
  do 3 f_equal. lia.
Qed.

Lemma dim_axis {T} (t : Tensor T) (ax : nat) (d : Z) :
  reverse (dim t) !! ax = Some d →
  vget (dim t) (ndim t - 1 - Z.of_nat ax) = Ok d.
Proof.
  intros Hd. rewrite <-(vget_reverse _ _ _ Hd).
  by rewrite reverse_involutive, length_reverse.
Qed.

(** The offsets of one line: from an offset [i] whose digit at [a] is 0,
    [c] steps of the stride of [a] lead to the offset with the same
    digits but [c] at [a], which is again below the number of elements. *)
Lemma line_digits (rdim : list Z) (a : nat) (d i c : Z) :
  Forall (λ d, 0 < d) rdim → rdim !! a = Some d →
  0 ≤ i < product rdim → digits rdim i !! a = Some 0 → 0 ≤ c < d →
  0 ≤ i + c * product (take a rdim) < product rdim ∧
  digits rdim (i + c * product (take a rdim)) = <[a:=c]> (digits rdim i).
Proof.
  intros Hpos Hd Hi Hz Hc.
  pose proof (digits_range rdim i Hpos ltac:(lia)) as Hrange.
  pose proof (digits_range_insert _ _ _ _ _ Hrange Hd Hc) as Hrange'.
  pose proof (value_insert rdim (digits rdim i) a 0 c
                ltac:(by rewrite digits_length) Hz) as Hval.
  rewrite value_digits in Hval by done. rewrite Z.sub_0_r in Hval.
  rewrite <-Hval. split.
  - split; [by apply value_nonneg|by apply value_lt].
  - by apply digits_value.
Qed.

(** Every offset lies on the line through the offset with its digit at
    [a] put to 0. *)
Lemma line_base (rdim : list Z) (a : nat) (d j : Z) :
  Forall (λ d, 0 < d) rdim → rdim !! a = Some d → 0 ≤ j < product rdim →
  ∃ c, digits rdim j !! a = Some c ∧ 0 ≤ c < d ∧
    0 ≤ j - c * product (take a rdim) < product rdim ∧
    digits rdim (j - c * product (take a rdim)) = <[a:=0]> (digits rdim j).
Proof.
  intros Hpos Hd Hj.
  pose proof (digits_range rdim j Hpos ltac:(lia)) as Hrange.
  destruct (Forall2_lookup_l _ _ _ _ _ Hrange Hd) as (c & Hc & Hcd).
  exists c. split; [done|]. split; [lia|].
  pose proof (digits_range_insert _ _ a d 0 Hrange Hd ltac:(lia)) as Hrange'.
  pose proof (value_insert rdim (digits rdim j) a c 0
                ltac:(by rewrite digits_length) Hc) as Hval.
  rewrite value_digits in Hval by done.
  replace (j - c * product (take a rdim))
    with (value rdim (<[a:=0]> (digits rdim j))) by lia.
  split; [split; [by apply value_nonneg|by apply value_lt]|].
  by apply digits_value.
Qed.

(** ** Construction, [location] and [index]: further properties *)

Lemma for_down_S {St} (k : nat) (body : Z → St → result St) (s : St) :
  for_down (S k) body s = s' ← body (Z.of_nat k) s; for_down k body s'.
Proof. done. Qed.

Section MoreCoordinates.
Context {T : Type} `{Scalar T}.

(** X1. A tensor constructed on a shape whose extents and running
    products are representable as [int] has the requested [dim], [nelem]
    their product, [nelem] elements all zero, and strides that follow the
    rule of the constructor's loop: the innermost stride is 1 and every
    other stride is the next one times the next extent. *)
Theorem constructor_layout (shape : list Z) (t : Tensor T) :
  int_shape shape → Tensor_new32 shape = Ok t →
  dim t = shape ∧ nelem t = product shape ∧
  Z.of_nat (length (vec t)) = nelem t ∧ Forall (λ x, x = szero) (vec t) ∧
  length (offsets t) = length shape ∧
  (shape ≠ [] → last (offsets t) = Some 1) ∧
  (∀ i o d, offsets t !! S i = Some o → shape !! S i = Some d →
            offsets t !! i = Some (o * d)).
Proof.
  intros Hint. rewrite Tensor_new32_ideal by done.
  destruct (decide (0 ≤ product shape)) as [Hp|Hp];
    [|by rewrite Tensor_new_Err by lia].
  rewrite Tensor_new_Ok by done. intros [= <-]. cbn [dim nelem vec offsets].
  split_and!; [done|done|rewrite length_replicate; lia|
               apply Forall_replicate; done|apply scaled_offsets_length| |].
  - destruct shape as [|d ds _] using rev_ind; [done|]. intros _.
    by rewrite offsets_of_snoc, last_snoc.
  - intros i o d Ho Hd. pose proof (lookup_lt_Some _ _ _ Hd) as Hi.
    unfold offsets_of in *.
    rewrite scaled_offsets_lookup in Ho |- * by lia.
    injection Ho as <-. rewrite (drop_S _ _ _ Hd), product_cons.
    f_equal. lia.
Qed.

Lemma location_range (t : Tensor T) (c : list Z) :
  wf t → positive_dims t → valid_coords (dim t) c →
  ∃ loc, location t c = Ok loc ∧ 0 ≤ loc < nelem t ∧
         0 ≤ loc < Z.of_nat (length (vec t)).
Proof.
  intros Hwf Hpos Hc. pose proof Hwf as (_ & Hn & Hlen).
  eexists. split; [apply location_Ok; [done|by apply Forall2_length in Hc]|].
  assert (Forall2 (λ d x, 0 ≤ x < d) (reverse (dim t)) (reverse c)) as Hr.
  { by apply Forall2_reverse, Forall2_flip. }
  pose proof (value_nonneg _ _ Hr). pose proof (value_lt _ _ Hr) as Hlt.
  rewrite product_reverse in Hlt. lia.
Qed.

Lemma location_inj (t : Tensor T) (c1 c2 : list Z) :
  wf t → valid_coords (dim t) c1 → valid_coords (dim t) c2 →
  location t c1 = location t c2 → c1 = c2.
Proof.
  intros Hwf Hc1 Hc2.
  rewrite !location_Ok by (done || by eapply Forall2_length).
  intros [= Hv].
  apply (f_equal (digits (reverse (dim t)))) in Hv.
  rewrite !digits_value in Hv by (by apply Forall2_reverse, Forall2_flip).
  by apply (inj reverse).
Qed.

(** X2. On a tensor with positive dims, the flat offset of coordinates
    that are each within their extent is within the buffer. *)
Theorem location_within_buffer (t : Tensor T) (c : list Z) :
  wf t → positive_dims t → valid_coords (dim t) c →
  ∃ loc, location t c = Ok loc ∧ 0 ≤ loc < nelem t ∧
         0 ≤ loc < Z.of_nat (length (vec t)).
Proof. apply location_range. Qed.

(** X3. On such a tensor two different coordinate tuples never share a
    flat offset. *)
Theorem location_injective (t : Tensor T) (c1 c2 : list Z) :
  wf t → valid_coords (dim t) c1 → valid_coords (dim t) c2 →
  location t c1 = location t c2 → c1 = c2.
Proof. apply location_inj. Qed.

(** X4. On a tensor with positive dims, [index] of a flat offset within
    the buffer gives one coordinate per axis, each within its extent. *)
Theorem index_within_extents (t : Tensor T) (x : Z) :
  wf t → positive_dims t → 0 ≤ x < nelem t →
  ∃ c, index t x = Ok c ∧ valid_coords (dim t) c.
Proof.
  intros Hwf Hpos Hx. eexists.
  split; [apply index_Ok; by apply positive_nonzero|].
  unfold valid_coords. apply Forall2_flip.
  rewrite <-(reverse_involutive (dim t)) at 1. apply Forall2_reverse.
  apply digits_range; [by apply Forall_reverse|lia].
Qed.

(** X5. [location] reads one coordinate per axis: with fewer coordinates
    than axes it reads past the end of [ix]; coordinates beyond the rank
    are never read. *)
Theorem location_coordinate_count (t : Tensor T) (ix : list Z) :
  wf t →
  ((length ix < length (dim t))%nat → location t ix = Err OutOfBounds) ∧
  ((length (dim t) ≤ length ix)%nat →
     location t ix = location t (take (length (dim t)) ix)).
Proof.
  intros Hwf. pose proof (wf_offsets_length t Hwf) as Hlen. split.
  - intros Hshort. unfold location.
    destruct (length (dim t)) as [|m] eqn:Hm; [lia|].
    destruct (lookup_lt_is_Some_2 (offsets t) m) as [o Ho]; [lia|].
    rewrite for_down_S, (vget_nat _ _ _ Ho), bind_Ok.
    by rewrite vget_oob by lia.
  - intros Hlong. unfold location.
    rewrite !location_loop by (rewrite ?length_take; lia).
    by rewrite take_take, Nat.min_id.
Qed.

Lemma index_loop_zero (dim : list Z) (m : nat) (id : list Z) (loc : Z) :
  (m ≤ length dim)%nat → length id = length dim →
  Exists (λ d, d = 0) (take m dim) →
  for_down m (λ i '(loc, id),
      d ← vget dim i;
      ix ← imod loc d;
      loc' ← idiv (loc - ix) d;
      id' ← vset id i ix;
      Ok (loc', id')) (loc, id)
  = Err DivisionByZero.
Proof.
  revert id loc. induction m as [|m IH]; intros id loc Hm Hlen Hex.
  - rewrite take_0 in Hex. by apply Exists_nil in Hex.
  - destruct (lookup_lt_is_Some_2 dim m) as [d Hd]; [lia|].
    rewrite (take_S_r _ _ _ Hd) in Hex.
    rewrite for_down_S, (vget_nat _ _ _ Hd), bind_Ok.
    destruct (decide (d = 0)) as [->|Hnz].
    + unfold imod. by rewrite decide_True.
    + rewrite imod_nz, bind_Ok, idiv_nz, bind_Ok by done.
      rewrite vset_nat, !bind_Ok by lia.
      apply IH; [lia|by rewrite length_insert|].
      apply Exists_app in Hex as [Hex|Hex]; [done|].
      apply Exists_cons in Hex as [?|Hex]; [done|].
      by apply Exists_nil in Hex.
Qed.

(** X6. When some extent is 0, [index] divides by it, whatever the flat
    offset. *)
Theorem index_zero_extent (t : Tensor T) (loc : Z) :
  0 ∈ dim t → index t loc = Err DivisionByZero.
Proof.
  intros Hz. unfold index.
  rewrite index_loop_zero; [done|lia|by rewrite length_replicate|].
  rewrite firstn_all. apply Exists_exists. by exists 0.
Qed.

End MoreCoordinates.

(** ** [plane]: further properties *)

Lemma vget_negative {A} (v : list A) (i : Z) :
  i < 0 → vget v i = Err OutOfBounds.
Proof. intros Hi. unfold vget. by rewrite decide_False by lia. Qed.

Section MorePlane.
Context {T : Type} `{Scalar T}.

Lemma plane_edge (t : Tensor T) (axis k : Z) :
  wf t →
  (nelem t = 0 → plane t axis k = Ok []) ∧
  (positive_dims t → axis < 0 ∨ ndim t ≤ axis →
     plane t axis k = Err OutOfBounds).
Proof.
  intros Hwf. split.
  - intros Hn. unfold plane, reserve. by rewrite Hn.
  - intros Hpos Hax. pose proof Hwf as (_ & Hn & _).
    pose proof (product_pos _ Hpos) as Hprod.
    unfold plane, reserve. rewrite decide_False, bind_Ok by lia.
    destruct (Z.to_nat (nelem t)) as [|n] eqn:Hnat; [lia|].
    rewrite for_up_S, index_Ok, bind_Ok by (by apply positive_nonzero).
    assert (vget (reverse (digits (reverse (dim t)) 0)) (ndim t - 1 - axis)
            = Err OutOfBounds) as ->; [|done].
    destruct Hax as [Hax|Hax]; [|apply vget_negative; lia].
    apply vget_oob.
    rewrite length_reverse, digits_length, length_reverse. unfold ndim. lia.
Qed.

(** X7. On a tensor without elements [plane] returns the empty list for
    every axis; on a tensor with positive dims an axis that is negative or
    not below the rank makes it index the coordinates out of bounds. *)
Theorem plane_axis_edge_cases (t : Tensor T) (axis k : Z) :
  wf t →
  (nelem t = 0 → plane t axis k = Ok []) ∧
  (positive_dims t → axis < 0 ∨ ndim t ≤ axis →
     plane t axis k = Err OutOfBounds).
Proof. apply plane_edge. Qed.

(** X8. On a tensor with positive dims, for an axis below the rank and
    [k] within the extent of that axis, [plane(axis, k)] has
    [nelem / dim[rank-1-axis]] entries, each a flat offset within the
    buffer whose coordinate on the axis is [k]. *)
Theorem plane_at_coordinate (t : Tensor T) (axis k d : Z) :
  wf t → positive_dims t → 0 ≤ axis < ndim t →
  vget (dim t) (ndim t - 1 - axis) = Ok d → 0 ≤ k < d →
  ∃ locs, plane t axis k = Ok locs ∧
    Z.of_nat (length locs) = nelem t / d ∧
    Forall (λ l, 0 ≤ l < nelem t ∧
                 (id ← index t l; vget id (ndim t - 1 - axis)) = Ok k) locs.
Proof.
  intros Hwf Hpos Hax Hd Hk. pose proof Hwf as (_ & Hn & _).
  destruct (plane_Ok t axis k Hwf Hpos Hax) as (o & Ho & ->).
  remember (Z.to_nat axis) as ax eqn:Heq.
  assert (axis = Z.of_nat ax) as -> by lia. clear Heq.
  unfold ndim in Hax.
  rewrite offsets_axis in Ho by (done || lia). injection Ho as <-.
  assert (reverse (dim t) !! ax = Some d) as Hrd.
  { destruct (lookup_lt_is_Some_2 (reverse (dim t)) ax) as [d' Hd'];
      [rewrite length_reverse; lia|].
    rewrite (dim_axis _ _ _ Hd') in Hd. by injection Hd as <-. }
  assert (Forall (λ d, 0 < d) (reverse (dim t))) as Hrpos
    by (by apply Forall_reverse).
  eexists. split; [done|]. split.
  - rewrite length_fmap.
    pose proof (count_zero_digit _ _ _ Hrpos Hrd) as Hcount.
    rewrite product_reverse, <-Hn in Hcount.
    assert (0 < d) by (by eapply (Forall_lookup_1 _ (reverse (dim t)))).
    apply Z.div_unique_exact; lia.
  - apply Forall_fmap, Forall_forall. intros i [Hz Hi%elem_of_seqZ]%list_elem_of_filter.
    cbn. rewrite Hn in Hi |- *.
    rewrite <-(product_reverse (dim t)) in Hi.
    destruct (line_digits _ _ _ i k Hrpos Hrd ltac:(lia) Hz Hk)
      as [Hrange Hdig].
    rewrite (product_reverse (dim t)) in Hrange.
    split; [lia|].
    destruct (index_axis t ax (i + k * product (take ax (reverse (dim t))))
                (positive_nonzero _ Hpos) ltac:(lia)) as (c & Hc & ->).
    rewrite Hdig, list_lookup_insert_eq in Hc
      by (rewrite digits_length, length_reverse; lia).
    by injection Hc as <-.
Qed.

End MorePlane.

(** ** [transform_dim] and [transform]: what they write *)

Lemma vget_insert_eq {A} (v : list A) (i : Z) (x y : A) :
  vget v i = Ok x → vget (<[Z.to_nat i := y]> v) i = Ok y.
Proof.
  intros [Hi Hx%lookup_lt_Some]%vget_Ok. apply vget_at; [done|].
  by apply list_lookup_insert_eq.
Qed.

Lemma vget_insert_ne {A} (v : list A) (i j : Z) (y : A) :
  0 ≤ i → i ≠ j → vget (<[Z.to_nat i := y]> v) j = vget v j.
Proof.
  intros Hi Hne. unfold vget. destruct (decide (0 ≤ j)); [|done].
  by rewrite list_lookup_insert_ne by lia.
Qed.

Lemma vget_in_range {A} (v : list A) (i : Z) :
  0 ≤ i < Z.of_nat (length v) → ∃ x, vget v i = Ok x.
Proof.
  intros Hi. destruct (lookup_lt_is_Some_2 v (Z.to_nat i)) as [x Hx]; [lia|].
  exists x. apply vget_at; [lia|done].
Qed.

Lemma st_bind_lift_Err {T A B} (e : error) (f : A → ST T B) (t : Tensor T) :
  (st_lift (Err e) ≫= f) t = (t, Err e).
Proof. done. Qed.

Lemma st_bind_assert_false {T A} (f : unit → ST T A) (t : Tensor T) :
  (st_assert false ≫= f) t = (t, Err AssertionFailed).
Proof. done. Qed.

Section MoreTransform.
Context {T : Type} `{Scalar T}.

Lemma transform_dim_checks (t : Tensor T) (loc axis : Z)
    (f : T → T → T) (w : list T) :
  (axis < 0 ∨ ndim t ≤ axis →
     transform_dim loc axis f w t = (t, Err OutOfBounds)) ∧
  (∀ d, vget (dim t) (ndim t - 1 - axis) = Ok d → Z.of_nat (length w) ≠ d →
     transform_dim loc axis f w t = (t, Err AssertionFailed)).
Proof.
  split.
  - intros Hax. unfold transform_dim. rewrite st_bind_get. cbn beta.
    assert (vget (dim t) (ndim t - 1 - axis) = Err OutOfBounds) as ->.
    { destruct Hax; [apply vget_oob; unfold ndim; lia|].
      apply vget_negative. lia. }
    apply st_bind_lift_Err.
  - intros d Hd Hne. unfold transform_dim. rewrite st_bind_get. cbn beta.
    rewrite Hd, st_bind_lift_Ok, bool_decide_false by done.
    apply st_bind_assert_false.
Qed.

(** X9. [transform_dim] checks before it writes: an axis that is negative
    or not below the rank, or a number of weights other than the extent
    of the axis, stops it with the tensor as it was. *)
Theorem transform_dim_rejects (t : Tensor T) (loc axis : Z)
    (f : T → T → T) (w : list T) :
  (axis < 0 ∨ ndim t ≤ axis →
     transform_dim loc axis f w t = (t, Err OutOfBounds)) ∧
  (∀ d, vget (dim t) (ndim t - 1 - axis) = Ok d → Z.of_nat (length w) ≠ d →
     transform_dim loc axis f w t = (t, Err AssertionFailed)).
Proof. apply transform_dim_checks. Qed.

(** The loop of [transform_dim] over [n] elements [off] apart. *)
Lemma transform_dim_loop (f : T → T → T) (w : list T) (off : Z) (n : nat)
    (count i : Z) (t : Tensor T) :
  0 < off → 0 ≤ i → 0 ≤ count →
  i + (Z.of_nat n - 1) * off < Z.of_nat (length (vec t)) →
  count + Z.of_nat n ≤ Z.of_nat (length w) →
  ∃ v', st_for_up n count (λ count i,
      x ← st_read i;
      wc ← st_lift (vget w count);
      _ ← st_write i (f x wc);
      mret (i + off)) i t
    = (set_vec t v', Ok (i + Z.of_nat n * off)) ∧
    length v' = length (vec t) ∧
    (∀ c, 0 ≤ c < Z.of_nat n →
       ∃ x wc, vget (vec t) (i + c * off) = Ok x ∧
               vget w (count + c) = Ok wc ∧
               vget v' (i + c * off) = Ok (f x wc)) ∧
    (∀ j, (∀ c, 0 ≤ c < Z.of_nat n → j ≠ i + c * off) →
       vget v' j = vget (vec t) j).
Proof.
  intros Hoff. revert count i t.
  induction n as [|n IH]; intros count i t Hi Hcount Hlast Hw.
  - exists (vec t). split_and!; [|done|intros; lia|done].
    replace (i + Z.of_nat 0 * off) with i by lia. by destruct t.
  - destruct (vget_in_range (vec t) i) as [x Hx]; [nia|].
    destruct (vget_in_range w count) as [wc Hwc]; [lia|].
    rewrite (transform_dim_step _ _ _ _ _ _ _ x wc Hx Hwc).
    destruct (IH (count + 1) (i + off)
                (set_vec t (<[Z.to_nat i := f x wc]> (vec t))))
      as (v' & Hrun & Hlen & Hline & Hrest);
      [lia|lia|cbn; rewrite length_insert; nia|lia|].
    cbn [vec set_vec] in Hlen, Hline, Hrest.
    rewrite length_insert in Hlen.
    exists v'. split_and!.
    + rewrite Hrun.
      replace (i + off + Z.of_nat n * off) with (i + Z.of_nat (S n) * off)
        by lia.
      done.
    + done.
    + intros c Hc. destruct (decide (c = 0)) as [->|Hc0].
      * exists x, wc. rewrite Z.mul_0_l, !Z.add_0_r.
        split_and!; [done..|].
        rewrite Hrest by (intros c' Hc'; nia).
        by eapply vget_insert_eq.
      * destruct (Hline (c - 1)) as (x' & wc' & Hx' & Hwc' & Hv'); [lia|].
        replace (i + off + (c - 1) * off) with (i + c * off) in * by lia.
        replace (count + 1 + (c - 1)) with (count + c) in * by lia.
        exists x', wc'. split_and!; [|done..].
        rewrite vget_insert_ne in Hx' by nia. done.
    + intros j Hj. rewrite Hrest.
      * apply vget_insert_ne; [done|]. specialize (Hj 0). lia.
      * intros c' Hc'. specialize (Hj (c' + 1)). lia.
Qed.

Lemma transform_dim_line (t : Tensor T) (loc axis d off : Z)
    (f : T → T → T) (w : list T) :
  vget (dim t) (ndim t - 1 - axis) = Ok d →
  vget (offsets t) (ndim t - 1 - axis) = Ok off →
  Z.of_nat (length w) = d → 0 < off → 0 ≤ loc →
  loc + (d - 1) * off < Z.of_nat (length (vec t)) →
  ∃ t', transform_dim loc axis f w t = (t', Ok tt) ∧ same_shape t t' ∧
    (∀ c, 0 ≤ c < d →
       ∃ x wc, vget (vec t) (loc + c * off) = Ok x ∧ vget w c = Ok wc ∧
               vget (vec t') (loc + c * off) = Ok (f x wc)) ∧
    (∀ j, (∀ c, 0 ≤ c < d → j ≠ loc + c * off) →
       vget (vec t') j = vget (vec t) j).
Proof.
  intros Hd Ho Hw Hoff Hloc Hlast.
  destruct (transform_dim_loop f w off (Z.to_nat d) 0 loc t)
    as (v' & Hrun & Hlen & Hline & Hrest); [lia..|].
  exists (set_vec t v'). split_and!.
  - unfold transform_dim. rewrite st_bind_get. cbn beta.
    rewrite Hd, st_bind_lift_Ok, bool_decide_true, st_bind_assert_true
      by done.
    rewrite Ho, st_bind_lift_Ok, st_bind_lift_Ok.
    by erewrite st_bind_run.
  - by apply same_shape_set_vec.
  - intros c Hc. destruct (Hline c) as (x & wc & ? & ? & ?); [lia|].
    exists x, wc. by rewrite Z.add_0_l in *.
  - intros j Hj. apply Hrest. intros c Hc. apply Hj. lia.
Qed.

(** X10. Along a line that lies within the buffer, [transform_dim]
    replaces each of the [dim[a]] elements, [offsets[a]] apart from
    [loc] on, by [binary_op(element, w[count])] with its own step number
    [count], and leaves every other element and the shape as they were. *)
Theorem transform_dim_updates_line (t : Tensor T) (loc axis d off : Z)
    (f : T → T → T) (w : list T) :
  vget (dim t) (ndim t - 1 - axis) = Ok d →
  vget (offsets t) (ndim t - 1 - axis) = Ok off →
  Z.of_nat (length w) = d → 0 < off → 0 ≤ loc →
  loc + (d - 1) * off < Z.of_nat (length (vec t)) →
  ∃ t', transform_dim loc axis f w t = (t', Ok tt) ∧ same_shape t t' ∧
    (∀ c, 0 ≤ c < d →
       ∃ x wc, vget (vec t) (loc + c * off) = Ok x ∧ vget w c = Ok wc ∧
               vget (vec t') (loc + c * off) = Ok (f x wc)) ∧
    (∀ j, (∀ c, 0 ≤ c < d → j ≠ loc + c * off) →
       vget (vec t') j = vget (vec t) j).
Proof. apply transform_dim_line. Qed.

Lemma st_for_up_S {St} (n : nat) (i : Z) (body : Z → St → ST T St) (s : St) :
  st_for_up (S n) i body s = s' ← body i s; st_for_up n (i + 1) body s'.
Proof. done. Qed.

(** The loop of [transform] over the lines still to be visited, on a
    tensor [t] that has kept the shape of [t0]. *)
Lemma transform_loop (t0 : Tensor T) (ax : nat) (d : Z) (f : T → T → T)
    (w : list T) (pre rest : list Z) (t : Tensor T) :
  wf t0 → positive_dims t0 → reverse (dim t0) !! ax = Some d →
  Z.of_nat (length w) = d → same_shape t0 t →
  Forall (λ l, 0 ≤ l < nelem t0 ∧
               digits (reverse (dim t0)) l !! ax = Some 0) rest →
  NoDup rest →
  ∃ t', st_for_up (length rest) (Z.of_nat (length pre)) (λ i _,
      l ← st_lift (vget (pre ++ rest) i);
      transform_dim l (Z.of_nat ax) f w) tt t = (t', Ok tt) ∧
    same_shape t0 t' ∧
    ∀ j, 0 ≤ j < nelem t0 →
      ∃ c, digits (reverse (dim t0)) j !! ax = Some c ∧
        (j - c * product (take ax (reverse (dim t0))) ∈ rest →
           ∃ x wc, vget (vec t) j = Ok x ∧ vget w c = Ok wc ∧
                   vget (vec t') j = Ok (f x wc)) ∧
        (j - c * product (take ax (reverse (dim t0))) ∉ rest →
           vget (vec t') j = vget (vec t) j).
Proof.
  intros Hwf Hpos Hd Hw. pose proof Hwf as (_ & Hn & Hlen).
  set (rdim := reverse (dim t0)) in *.
  set (off := product (take ax rdim)).
  assert (Forall (λ d, 0 < d) rdim) as Hrpos by (by apply Forall_reverse).
  assert (product rdim = nelem t0) as Hprod
    by (unfold rdim; by rewrite product_reverse).
  assert (0 < d) as Hdpos by (by eapply (Forall_lookup_1 _ rdim)).
  assert (0 < off) as Hoff by (by apply product_pos, Forall_take).
  assert (ax < length (dim t0))%nat as Hax.
  { apply lookup_lt_Some in Hd. unfold rdim in Hd.
    by rewrite length_reverse in Hd. }
  revert pre t. induction rest as [|l rest IH]; intros pre t Hsame Hbase Hnd.
  - exists t. split_and!; [done..|]. intros j Hj.
    destruct (line_base rdim ax d j Hrpos Hd ltac:(lia)) as (c & Hc & _).
    exists c. split_and!; [done| |done]. by intros ?%elem_of_nil.
  - apply Forall_cons in Hbase as [[Hl Hlz] Hbase].
    apply NoDup_cons in Hnd as [Hnotin Hnd].
    pose proof Hsame as (Hdim & Hoffs & Hnelem & Hvlen).
    assert (ndim t = ndim t0) as Hndim by (unfold ndim; by rewrite Hdim).
    destruct (line_digits rdim ax d l (d - 1) Hrpos Hd ltac:(lia) Hlz
                ltac:(lia)) as [Hlast _].
    destruct (transform_dim_line t l (Z.of_nat ax) d off f w)
      as (t1 & Hrun1 & Hsame1 & Hline1 & Hrest1).
    { rewrite Hdim, Hndim. by apply dim_axis. }
    { rewrite Hoffs, Hndim. by apply offsets_axis. }
    { done. } { done. } { lia. } { fold off in Hlast. lia. }
    destruct (IH (pre ++ [l]) t1 (same_shape_trans _ _ _ Hsame Hsame1)
                Hbase Hnd) as (t' & Hrun & Hsame' & Hall).
    exists t'. split_and!; [|done|].
    + cbn [length]. rewrite st_for_up_S.
      erewrite st_bind_run; last first.
      { rewrite (vget_nat _ _ l) by (by apply list_lookup_middle).
        rewrite st_bind_lift_Ok. exact Hrun1. }
      rewrite length_app, <-app_assoc in Hrun. cbn in Hrun.
      rewrite Nat2Z.inj_add in Hrun. exact Hrun.
    + intros j Hj. destruct (Hall j Hj) as (c & Hc & Hin & Hout).
      exists c. split; [done|].
      pose proof (Forall2_lookup_lr _ _ _ _ _ _
        (digits_range rdim j Hrpos ltac:(lia)) Hd Hc) as Hcd. cbn in Hcd.
      assert (j - c * off ≠ l →
              ∀ c', 0 ≤ c' < d → j ≠ l + c' * off) as Hoffline.
      { intros Hne c' Hc' ->.
        destruct (line_digits rdim ax d l c' Hrpos Hd ltac:(lia) Hlz Hc')
          as [_ Hdig].
        fold off in Hdig. rewrite Hdig in Hc.
        rewrite list_lookup_insert_eq in Hc
          by (rewrite digits_length; by eapply lookup_lt_Some).
        injection Hc as ->. lia. }
      split.
      * intros [Heq|Hin']%elem_of_cons.
        -- destruct (Hline1 c Hcd) as (x & wc & Hx & Hwc & Hx1).
           replace (l + c * off) with j in * by lia.
           exists x, wc. split_and!; [done..|].
           rewrite Hout; [done|]. by rewrite Heq.
        -- destruct (Hin Hin') as (x & wc & Hx & Hwc & Hx').
           exists x, wc. split_and!; [|done..].
           rewrite <-Hx. symmetry. apply Hrest1, Hoffline.
           intros Heq. apply Hnotin. by rewrite <-Heq.
      * intros Hnin. apply not_elem_of_cons in Hnin as [Hne Hnin].
        rewrite Hout by done. by apply Hrest1, Hoffline.
Qed.

(** X11. On a tensor with positive dims, with as many weights as the axis
    has elements, [transform] replaces every element by
    [binary_op(element, w[c])], [c] the coordinate of the element on the
    axis, and keeps the shape. *)
Theorem transform_updates_every_element (t : Tensor T) (axis d : Z)
    (f : T → T → T) (w : list T) :
  wf t → positive_dims t → 0 ≤ axis < ndim t →
  vget (dim t) (ndim t - 1 - axis) = Ok d → Z.of_nat (length w) = d →
  ∃ t', transform axis f w t = (t', Ok tt) ∧ same_shape t t' ∧
    ∀ j, 0 ≤ j < nelem t →
      ∃ x c wc, vget (vec t) j = Ok x ∧
        (id ← index t j; vget id (ndim t - 1 - axis)) = Ok c ∧
        vget w c = Ok wc ∧ vget (vec t') j = Ok (f x wc).
Proof.
  intros Hwf Hpos Hax Hd Hw. pose proof Hwf as (_ & Hn & Hlen).
  destruct (plane_Ok t axis 0 Hwf Hpos Hax) as (o & _ & Hplane).
  remember (Z.to_nat axis) as ax eqn:Heq.
  assert (axis = Z.of_nat ax) as -> by lia. clear Heq.
  unfold ndim in Hax.
  rewrite (list_fmap_ext _ id), list_fmap_id in Hplane by (intros; cbn; lia).
  assert (reverse (dim t) !! ax = Some d) as Hrd.
  { destruct (lookup_lt_is_Some_2 (reverse (dim t)) ax) as [d' Hd'];
      [rewrite length_reverse; lia|].
    rewrite (dim_axis _ _ _ Hd') in Hd. by injection Hd as <-. }
  assert (Forall (λ d, 0 < d) (reverse (dim t))) as Hrpos
    by (by apply Forall_reverse).
  set (locs := filter (λ i, digits (reverse (dim t)) i !! ax = Some 0)
                 (seqZ 0 (nelem t))) in *.
  destruct (transform_loop t ax d f w [] locs t Hwf Hpos Hrd Hw
              (same_shape_refl t)) as (t' & Hrun & Hsame & Hall).
  { apply Forall_forall. intros i [Hz Hi%elem_of_seqZ]%list_elem_of_filter.
    split; [lia|done]. }
  { apply NoDup_filter, NoDup_seqZ. }
  exists t'. split_and!; [|done|].
  - unfold transform. rewrite st_bind_get. cbn beta.
    rewrite Hplane, st_bind_lift_Ok. exact Hrun.
  - intros j Hj. destruct (Hall j Hj) as (c & Hc & Hin & _).
    destruct (line_base _ ax d j Hrpos Hrd
                ltac:(by rewrite product_reverse, <-Hn))
      as (c' & Hc' & Hcd & Hrange & Hdig).
    rewrite Hc in Hc'. injection Hc' as <-.
    rewrite product_reverse, <-Hn in Hrange.
    destruct Hin as (x & wc & Hx & Hwc & Hx').
    { apply list_elem_of_filter. split; [|apply elem_of_seqZ; lia].
      rewrite Hdig. apply list_lookup_insert_eq.
      rewrite digits_length. by eapply lookup_lt_Some. }
    exists x, c, wc. split_and!; [done| |done..].
    destruct (index_axis t ax j (positive_nonzero _ Hpos) ltac:(lia))
      as (c'' & Hc'' & ->).
    congruence.
Qed.

End MoreTransform.

(** ** [accumulate_dim] and [accumulate]: what they compute *)

Section MoreAccumulate.
Context {T : Type} `{Scalar T}.

(** The elements of a line within the buffer, as a list. *)
Lemma line_elements (v : list T) (off : Z) (n : nat) (i : Z) :
  0 ≤ off → 0 ≤ i →
  (n ≠ 0%nat → i + (Z.of_nat n - 1) * off < Z.of_nat (length v)) →
  ∃ xs, length xs = n ∧
    ∀ c, (c < n)%nat →
      ∃ x, xs !! c = Some x ∧ vget v (i + Z.of_nat c * off) = Ok x.
Proof.
  intros Hoff. revert i. induction n as [|n IH]; intros i Hi Hlast.
  - exists []. split; [done|]. intros; lia.
  - specialize (Hlast ltac:(done)).
    destruct (vget_in_range v i) as [x Hx]; [nia|].
    destruct (IH (i + off)) as (xs & Hlen & Hxs); [lia|intros; lia|].
    exists (x :: xs). split; [cbn; lia|]. intros [|c] Hc.
    + exists x. by rewrite Z.mul_0_l, Z.add_0_r.
    + destruct (Hxs c) as (x' & Hx' & Hv); [lia|]. exists x'.
      split; [done|]. rewrite <-Hv. f_equal. lia.
Qed.

(** The loop of [accumulate_dim] is a left fold over the weighted
    elements it meets. *)
Lemma accumulate_dim_loop_fold (t : Tensor T) (off : Z) (op : T → T → T)
    (weights : list T) (xs ws : list T) (count i : Z) (v : T) :
  length ws = length xs →
  (∀ c x, xs !! c = Some x → vget (vec t) (i + Z.of_nat c * off) = Ok x) →
  (∀ c wv, ws !! c = Some wv →
     (if decide (0 < Z.of_nat (length weights))
      then vget weights (count + Z.of_nat c) else Ok sone) = Ok wv) →
  for_up (length xs) count (λ count '(i, v),
      w ← (if decide (0 < Z.of_nat (length weights))
           then vget weights count else Ok sone);
      x ← vget (vec t) i;
      Ok (i + off, op v (smul w x))) (i, v)
  = Ok (i + Z.of_nat (length xs) * off,
        fold_left (λ v p, op v (smul p.1 p.2)) (zip ws xs) v).
Proof.
  revert ws count i v.
  induction xs as [|x xs IH]; intros [|wv ws] count i v Hlen Hxs Hws;
    try done.
  - cbn. do 2 f_equal. lia.
  - cbn [length] in *. injection Hlen as Hlen.
    rewrite for_up_S. cbn beta iota.
    specialize (Hws 0%nat wv eq_refl) as Hw0. rewrite Z.add_0_r in Hw0.
    specialize (Hxs 0%nat x eq_refl) as Hx0.
    rewrite Z.mul_0_l, Z.add_0_r in Hx0.
    rewrite Hw0, bind_Ok, Hx0, !bind_Ok.
    rewrite (IH ws (count + 1) (i + off)).
    + cbn. do 2 f_equal. lia.
    + done.
    + intros c y Hy. rewrite <-(Hxs (S c) y Hy). f_equal. lia.
    + intros c y Hy. rewrite <-(Hws (S c) y Hy).
      destruct (decide _); [|done]. f_equal. lia.
Qed.

Lemma accumulate_dim_fold (t : Tensor T) (v0 : T) (loc axis d off : Z)
    (op : T → T → T) (weights : list T) :
  vget (dim t) (ndim t - 1 - axis) = Ok d →
  vget (offsets t) (ndim t - 1 - axis) = Ok off →
  weights = [] ∨ Z.of_nat (length weights) = d →
  0 ≤ off → 0 ≤ loc → loc + (d - 1) * off < Z.of_nat (length (vec t)) →
  ∃ xs, length xs = Z.to_nat d ∧
    (∀ c, 0 ≤ c < d → vget xs c = vget (vec t) (loc + c * off)) ∧
    accumulate_dim t v0 loc axis op weights
    = Ok (fold_left (λ v p, op v (smul p.1 p.2))
            (zip (if decide (weights = []) then replicate (length xs) sone
                  else weights) xs) szero).
Proof.
  intros Hd Ho Hw Hoff Hloc Hlast.
  destruct (line_elements (vec t) off (Z.to_nat d) loc)
    as (xs & Hlen & Hxs); [lia|lia|intros; lia|].
  exists xs. split; [done|]. split.
  - intros c Hc. destruct (Hxs (Z.to_nat c)) as (x & Hx & Hv); [lia|].
    rewrite Z2Nat.id in Hv by lia. rewrite Hv. by apply vget_at; [lia|].
  - unfold accumulate_dim.
    assert ((if decide (Z.of_nat (length weights) = 0) then Ok ()
             else d ← vget (dim t) (ndim t - 1 - axis);
                  if decide (Z.of_nat (length weights) = d) then Ok ()
                  else Err AssertionFailed) = Ok ()) as ->.
    { destruct (decide (Z.of_nat (length weights) = 0)); [done|].
      rewrite Hd, bind_Ok. destruct Hw as [->|Hw]; [done|].
      by rewrite decide_True. }
    rewrite bind_Ok. cbn zeta. rewrite Ho, bind_Ok, Hd, bind_Ok.
    rewrite <-Hlen.
    rewrite (accumulate_dim_loop_fold t off op weights xs
               (if decide (weights = []) then replicate (length xs) sone
                else weights)).
    + by rewrite bind_Ok.
    + destruct (decide (weights = [])); [by rewrite length_replicate|].
      destruct Hw; [done|lia].
    + intros c x Hx. pose proof (lookup_lt_Some _ _ _ Hx) as Hc.
      destruct (Hxs c) as (x' & Hx' & Hv); [lia|]. congruence.
    + intros c wv Hwv. destruct (decide (weights = [])) as [->|Hne].
      * apply lookup_replicate in Hwv as [-> _]. done.
      * rewrite decide_True by (destruct weights; [done|cbn; lia]).
        rewrite Z.add_0_l. by apply vget_nat.
Qed.

(** X12. Along a line that lies within the buffer, [accumulate_dim] is
    the left fold of [binary_op] over the elements of the line, each
    multiplied by its weight (by 1 without weights), in increasing step
    order and started from 0: the initial value it is passed does not
    enter the result. *)
Theorem accumulate_dim_folds_from_zero (t : Tensor T) (v0 : T)
    (loc axis d off : Z) (op : T → T → T) (weights : list T) :
  vget (dim t) (ndim t - 1 - axis) = Ok d →
  vget (offsets t) (ndim t - 1 - axis) = Ok off →
  weights = [] ∨ Z.of_nat (length weights) = d →
  0 ≤ off → 0 ≤ loc → loc + (d - 1) * off < Z.of_nat (length (vec t)) →
  ∃ xs, length xs = Z.to_nat d ∧
    (∀ c, 0 ≤ c < d → vget xs c = vget (vec t) (loc + c * off)) ∧
    accumulate_dim t v0 loc axis op weights
    = Ok (fold_left (λ v p, op v (smul p.1 p.2))
            (zip (if decide (weights = []) then replicate (length xs) sone
                  else weights) xs) szero).
Proof. apply accumulate_dim_fold. Qed.

(** X13. [accumulate_dim] stops before it reads an element when weights
    are given in a number other than the extent of the axis, or when the
    axis is negative or not below the rank. *)
Theorem accumulate_dim_rejects (t : Tensor T) (v0 : T) (loc axis : Z)
    (op : T → T → T) (weights : list T) :
  (∀ d, vget (dim t) (ndim t - 1 - axis) = Ok d →
        weights ≠ [] → Z.of_nat (length weights) ≠ d →
        accumulate_dim t v0 loc axis op weights = Err AssertionFailed) ∧
  (wf t → axis < 0 ∨ ndim t ≤ axis →
     accumulate_dim t v0 loc axis op weights = Err OutOfBounds).
Proof.
  split.
  - intros d Hd Hne Hlen. unfold accumulate_dim.
    rewrite decide_False by (destruct weights; [done|cbn; lia]).
    rewrite Hd, bind_Ok. by rewrite decide_False.
  - intros Hwf Hax. pose proof (wf_offsets_length t Hwf) as Hlen.
    assert (∀ A (v : list A), length v = length (dim t) →
              vget v (ndim t - 1 - axis) = Err OutOfBounds) as Hoob.
    { intros A v Hv. destruct Hax; [apply vget_oob; unfold ndim; lia|].
      apply vget_negative. lia. }
    unfold accumulate_dim.
    destruct (decide (Z.of_nat (length weights) = 0)).
    + rewrite bind_Ok. cbn zeta. by rewrite (Hoob _ (offsets t)).
    + by rewrite (Hoob _ (dim t)).
Qed.

End MoreAccumulate.

Lemma Forall_exists_Forall2 {A B} (P : A → B → Prop) (l : list A) :
  Forall (λ x, ∃ y, P x y) l → ∃ k, Forall2 P l k.
Proof.
  induction 1 as [|x l [y Hy] _ [k Hk]]; [by exists []|].
  exists (y :: k). by constructor.
Qed.

Lemma product_delete (l : list Z) (i : nat) (d : Z) :
  l !! i = Some d → product (delete i l) * d = product l.
Proof.
  intros Hd. rewrite <-(take_drop_middle l i d Hd) at 2.
  rewrite delete_take_drop, !product_app, product_cons. lia.
Qed.

Section MoreAccumulateAll.
Context {T : Type} `{Scalar T}.

(** The loop of [accumulate] over the lines still to be reduced, the
    buffer of the result split into the part already assigned and the
    part still zero. *)
Lemma accumulate_loop (t tens0 : Tensor T) (v0 : T) (axis : Z)
    (op : T → T → T) (weights : list T) (rest : list Z) (rs : list T) :
  Forall2 (λ l r, accumulate_dim t v0 l axis op weights = Ok r) rest rs →
  ∀ (pre : list Z) (done todo : list T),
  length done = length pre → length todo = length rest →
  for_up (length rest) (Z.of_nat (length pre)) (λ i tens,
      l ← vget (pre ++ rest) i;
      a ← accumulate_dim t v0 l axis op weights;
      v' ← vset (vec tens) i a;
      Ok (set_vec tens v')) (set_vec tens0 (done ++ todo))
  = Ok (set_vec tens0 (done ++ rs)).
Proof.
  induction 1 as [|l r rest rs Hr _ IH]; intros pre dn td Hdn Htd.
  - destruct td; [|done]. done.
  - destruct td as [|y td]; [done|]. cbn [length] in *.
    rewrite for_up_S.
    rewrite (vget_nat _ _ l) by (by apply list_lookup_middle).
    rewrite bind_Ok, Hr, bind_Ok. cbn [vec set_vec].
    rewrite vset_nat by (rewrite length_app; cbn; lia). rewrite bind_Ok.
    change (set_vec (set_vec tens0 (dn ++ y :: td)) ?v)
      with (set_vec tens0 v).
    replace (<[length pre:=r]> (dn ++ y :: td)) with ((dn ++ [r]) ++ td).
    2:{ rewrite <-Hdn. replace (length dn) with (length dn + 0)%nat by lia.
        rewrite insert_app_r. by rewrite <-app_assoc. }
    replace (Z.of_nat (length pre) + 1)
      with (Z.of_nat (length (pre ++ [l]))) by (rewrite length_app; cbn; lia).
    replace (pre ++ l :: rest) with ((pre ++ [l]) ++ rest)
      by (by rewrite <-app_assoc).
    rewrite bind_Ok, (IH (pre ++ [l]) (dn ++ [r]) td)
      by (rewrite ?length_app; cbn; lia).
    by rewrite <-app_assoc.
Qed.

Lemma accumulate_lines (t : Tensor T) (v0 : T) (axis d : Z)
    (op : T → T → T) (weights : list T) :
  wf t → positive_dims t → 0 ≤ axis < ndim t →
  vget (dim t) (ndim t - 1 - axis) = Ok d →
  weights = [] ∨ Z.of_nat (length weights) = d →
  ∃ tens locs,
    accumulate t v0 axis op weights = Ok tens ∧
    plane t axis 0 = Ok locs ∧
    wf tens ∧ positive_dims tens ∧
    dim tens = delete (Z.to_nat (ndim t - 1 - axis)) (dim t) ∧
    nelem tens * d = nelem t ∧
    Forall2 (λ l r, accumulate_dim t v0 l axis op weights = Ok r)
      locs (vec tens).
Proof.
  intros Hwf Hpos Hax Hd Hw. pose proof Hwf as (_ & Hn & Hlen).
  destruct (plane_Ok t axis 0 Hwf Hpos Hax) as (o & _ & Hplane).
  rewrite (list_fmap_ext _ id), list_fmap_id in Hplane by (intros; cbn; lia).
  pose proof Hd as [Hge Hdl]%vget_Ok.
  set (a := Z.to_nat (ndim t - 1 - axis)) in *.
  remember (Z.to_nat axis) as ax eqn:Heq.
  assert (axis = Z.of_nat ax) as -> by lia. clear Heq.
  unfold ndim in Hax.
  assert (reverse (dim t) !! ax = Some d) as Hrd.
  { destruct (lookup_lt_is_Some_2 (reverse (dim t)) ax) as [d' Hd'];
      [rewrite length_reverse; lia|].
    rewrite (dim_axis _ _ _ Hd') in Hd. by injection Hd as <-. }
  assert (Forall (λ d, 0 < d) (reverse (dim t))) as Hrpos
    by (by apply Forall_reverse).
  assert (0 < d) as Hdpos by (by eapply (Forall_lookup_1 _ (reverse (dim t)))).
  pose proof (product_delete _ _ _ Hdl) as Hpd.
  pose proof (product_pos _ Hpos) as Hprod.
  assert (Forall (λ d, 0 < d) (delete a (dim t))) as Hpos'
    by (by apply Forall_delete).
  pose proof (product_pos _ Hpos') as Hprod'.
  set (locs := filter (λ i, digits (reverse (dim t)) i !! ax = Some 0)
                 (seqZ 0 (nelem t))) in *.
  assert (Z.of_nat (length locs) = product (delete a (dim t))) as Hcount.
  { pose proof (count_zero_digit _ _ _ Hrpos Hrd) as Hc.
    rewrite product_reverse, <-Hn in Hc. fold locs in Hc. nia. }
  assert (Forall (λ l, ∃ r, accumulate_dim t v0 l (Z.of_nat ax) op weights
                          = Ok r) locs) as Hall.
  { apply Forall_forall. intros l [Hz Hl%elem_of_seqZ]%list_elem_of_filter.
    rewrite Hn, <-(product_reverse (dim t)) in Hl.
    destruct (line_digits _ _ _ l (d - 1) Hrpos Hrd ltac:(lia) Hz
                ltac:(lia)) as [Hlast _].
    rewrite (product_reverse (dim t)), <-Hn, <-Hlen in Hlast.
    destruct (accumulate_dim_fold t v0 l (Z.of_nat ax) d
                (product (take ax (reverse (dim t)))) op weights)
      as (xs & _ & _ & ->); try done; [|by apply Z.lt_le_incl, product_pos, Forall_take|lia|lia|by eexists].
    apply offsets_axis; [done|lia]. }
  apply Forall_exists_Forall2 in Hall as [rs Hrs].
  pose proof (Forall2_length _ _ _ Hrs) as Hrlen.
  exists (mkTensor (offsets_of (delete a (dim t)))
            (product (delete a (dim t))) (delete a (dim t)) rs), locs.
  split_and!; [|done| |done|done|cbn; lia|done].
  - unfold accumulate, erase.
    rewrite decide_True, bind_Ok by (apply lookup_lt_Some in Hdl; lia).
    fold (ndim t). fold a. rewrite Tensor_new_Ok, bind_Ok by lia.
    rewrite Hplane, bind_Ok.
    apply (accumulate_loop t
             (mkTensor (offsets_of (delete a (dim t)))
                (product (delete a (dim t))) (delete a (dim t)) [])
             v0 (Z.of_nat ax) op weights locs rs Hrs [] []
             (replicate (Z.to_nat (product (delete a (dim t)))) szero));
      [done|rewrite length_replicate; lia].
  - split_and!; cbn; [done..|lia].
Qed.

(** X14. On a tensor with positive dims, with no weights or as many as
    the axis has elements, [accumulate] returns a tensor of the shape
    with that axis removed, holding for every line of [plane(axis)], in
    the order of [plane(axis)], what [accumulate_dim] gives on it. *)
Theorem accumulate_reduces_lines (t : Tensor T) (v0 : T) (axis d : Z)
    (op : T → T → T) (weights : list T) :
  wf t → positive_dims t → 0 ≤ axis < ndim t →
  vget (dim t) (ndim t - 1 - axis) = Ok d →
  weights = [] ∨ Z.of_nat (length weights) = d →
  ∃ tens locs,
    accumulate t v0 axis op weights = Ok tens ∧
    plane t axis 0 = Ok locs ∧
    wf tens ∧ positive_dims tens ∧
    dim tens = delete (Z.to_nat (ndim t - 1 - axis)) (dim t) ∧
    nelem tens * d = nelem t ∧
    Forall2 (λ l r, accumulate_dim t v0 l axis op weights = Ok r)
      locs (vec tens).
Proof. apply accumulate_lines. Qed.

(** The lines that [plane(axis)] enumerates lie within the buffer. *)
Lemma plane_lines_within (t : Tensor T) (axis d : Z) :
  wf t → positive_dims t → 0 ≤ axis < ndim t →
  vget (dim t) (ndim t - 1 - axis) = Ok d →
  ∃ off locs, vget (offsets t) (ndim t - 1 - axis) = Ok off ∧ 0 < off ∧
    0 < d ∧ plane t axis 0 = Ok locs ∧
    Forall (λ l, 0 ≤ l ∧ l + (d - 1) * off < Z.of_nat (length (vec t))) locs.
Proof.
  intros Hwf Hpos Hax Hd. pose proof Hwf as (_ & Hn & Hlen).
  destruct (plane_Ok t axis 0 Hwf Hpos Hax) as (o & _ & Hplane).
  rewrite (list_fmap_ext _ id), list_fmap_id in Hplane by (intros; cbn; lia).
  remember (Z.to_nat axis) as ax eqn:Heq.
  assert (axis = Z.of_nat ax) as -> by lia. clear Heq.
  unfold ndim in Hax.
  assert (reverse (dim t) !! ax = Some d) as Hrd.
  { destruct (lookup_lt_is_Some_2 (reverse (dim t)) ax) as [d' Hd'];
      [rewrite length_reverse; lia|].
    rewrite (dim_axis _ _ _ Hd') in Hd. by injection Hd as <-. }
  assert (Forall (λ d, 0 < d) (reverse (dim t))) as Hrpos
    by (by apply Forall_reverse).
  assert (0 < d) as Hdpos by (by eapply (Forall_lookup_1 _ (reverse (dim t)))).
  eexists _, _. split_and!; [apply offsets_axis; [done|lia]|
    by apply product_pos, Forall_take|done|done|].
  apply Forall_forall. intros l [Hz Hl%elem_of_seqZ]%list_elem_of_filter.
  rewrite Hn, <-(product_reverse (dim t)) in Hl.
  destruct (line_digits _ _ _ l (d - 1) Hrpos Hrd ltac:(lia) Hz
              ltac:(lia)) as [Hlast _].
  rewrite (product_reverse (dim t)), <-Hn, <-Hlen in Hlast. lia.
Qed.

(** [accumulate] takes its axis from the right end of [dim]: an axis that
    is negative or not below the rank has no extent to erase. *)
Lemma accumulate_rejects_axis (t : Tensor T) (v0 : T) (axis : Z)
    (op : T → T → T) (weights : list T) :
  axis < 0 ∨ ndim t ≤ axis →
  accumulate t v0 axis op weights = Err OutOfBounds.
Proof.
  intros Hax. unfold accumulate, erase, ndim in *.
  by rewrite decide_False by lia.
Qed.

End MoreAccumulateAll.

(** ** [max_dim] on integers *)

Lemma fold_max_from (ws xs : list Z) (v : Z) :
  Forall (λ w, w = 1) ws → length ws = length xs →
  let r := fold_left (λ v p, Z.max v (p.1 * p.2)) (zip ws xs) v in
  v ≤ r ∧ (∀ x, x ∈ xs → x ≤ r) ∧ (r = v ∨ r ∈ xs).
Proof.
  intros Hws. revert xs v.
  induction Hws as [|w ws -> _ IH]; intros [|x xs] v Hlen; try done.
  - cbn. split_and!; [lia| |by left]. by intros x ?%elem_of_nil.
  - cbn [zip zip_with fold_left fst snd]. injection Hlen as Hlen.
    destruct (IH xs (Z.max v (1 * x)) Hlen) as (Hge & Hall & Hor).
    cbn zeta in *. split_and!.
    + lia.
    + intros y [->|Hy]%elem_of_cons; [lia|by apply Hall].
    + destruct Hor as [Hr|Hr]; [|right; by right].
      rewrite Hr.
      destruct (Z.max_spec v (1 * x)) as [[_ Hm]|[_ Hm]]; rewrite Hm;
        [right; apply elem_of_cons; left; lia|by left].
Qed.

(** X15. On a tensor of integers with positive dims and at least two
    elements, [max_dim] gives for every line the larger of 0 and the
    greatest element of the line: no result is below 0, whatever the
    elements are. *)
Theorem max_dim_floor_zero (t : Tensor Z) (axis d off : Z) :
  wf t → positive_dims t → 0 ≤ axis < ndim t → 2 ≤ nelem t →
  vget (dim t) (ndim t - 1 - axis) = Ok d →
  vget (offsets t) (ndim t - 1 - axis) = Ok off →
  ∃ tens locs,
    max_dim t axis = Ok tens ∧ plane t axis 0 = Ok locs ∧
    dim tens = delete (Z.to_nat (ndim t - 1 - axis)) (dim t) ∧
    Forall2 (λ l r,
        0 ≤ r ∧
        (∀ c, 0 ≤ c < d →
           ∃ x, vget (vec t) (l + c * off) = Ok x ∧ x ≤ r) ∧
        (r = 0 ∨ ∃ c, 0 ≤ c < d ∧ vget (vec t) (l + c * off) = Ok r))
      locs (vec tens).
Proof.
  intros Hwf Hpos Hax Hn2 Hd Ho. pose proof Hwf as (_ & _ & Hlen).
  destruct (vget_in_range (vec t) 1) as [v0 Hv0]; [lia|].
  destruct (accumulate_lines t v0 axis d (λ a b, smax a b) []
              Hwf Hpos Hax Hd ltac:(by left))
    as (tens & locs & Hacc & Hplane & _ & _ & Hdim & _ & Hrs).
  destruct (plane_lines_within t axis d Hwf Hpos Hax Hd)
    as (off' & locs' & Ho' & Hoff & Hdpos & Hplane' & Hin).
  rewrite Ho in Ho'. injection Ho' as <-.
  rewrite Hplane in Hplane'. injection Hplane' as <-.
  exists tens, locs. split_and!; [|done..|].
  { unfold max_dim. by rewrite Hv0, bind_Ok. }
  apply Forall2_same_length_lookup. split; [by eapply Forall2_length|].
  intros k l r Hl Hr.
  pose proof (Forall2_lookup_lr _ _ _ _ _ _ Hrs Hl Hr) as Hres. cbn in Hres.
  pose proof (Forall_lookup_1 _ _ _ _ Hin Hl) as [Hl0 Hlast].
  destruct (accumulate_dim_fold t v0 l axis d off (λ a b, smax a b) []
              Hd Ho ltac:(by left) ltac:(lia) Hl0 Hlast)
    as (xs & Hxlen & Hxs & Hfold).
  pose proof (eq_trans (eq_sym Hfold) Hres) as Hres'. clear Hres.
  injection Hres' as Hres.
  destruct (fold_max_from (replicate (length xs) 1) xs 0)
    as (Hge & Hall & Hor);
    [by apply Forall_replicate|by rewrite length_replicate|].
  cbn zeta in Hge, Hall, Hor.
  rewrite Hres in Hge, Hall, Hor. split_and!; [done| |].
  - intros c Hc. destruct (vget_in_range xs c) as [x Hx]; [lia|].
    exists x. split; [by rewrite <-Hxs|].
    apply Hall. apply vget_Ok in Hx as [_ Hx]. by eapply list_elem_of_lookup_2.
  - destruct Hor as [?|Hor]; [by left|right].
    apply list_elem_of_lookup_1 in Hor as [c Hc].
    exists (Z.of_nat c). pose proof (lookup_lt_Some _ _ _ Hc).
    split; [lia|]. rewrite <-Hxs by lia. by apply vget_nat.
Qed.

(** ** [repeat_outer] *)

Section MoreReplication.
Context {T : Type} `{Scalar T}.

(** The inner loop of [repeat_outer]: one copy of the elements [rows] of
    [vec] still to be copied. *)
Lemma repeat_outer_copy (t tout : Tensor T) (pre rows done todo : list T) :
  vec t = pre ++ rows → (length rows ≤ length todo)%nat →
  for_up (length rows) (Z.of_nat (length pre)) (λ i '(tout, count),
      x ← vget (vec t) i;
      v' ← vset (vec tout) count x;
      Ok (set_vec tout v', count + 1))
    (set_vec tout (done ++ todo), Z.of_nat (length done))
  = Ok (set_vec tout (done ++ rows ++ drop (length rows) todo),
        Z.of_nat (length done + length rows)).
Proof.
  revert pre done todo.
  induction rows as [|x rows IH]; intros pre dn td Hvec Hlen.
  - cbn. by rewrite drop_0, Nat.add_0_r.
  - destruct td as [|y td]; [cbn in Hlen; lia|]. cbn [length] in *.
    rewrite for_up_S. cbn beta iota.
    rewrite (vget_nat _ _ x) by (rewrite Hvec; by apply list_lookup_middle).
    rewrite bind_Ok. cbn [vec set_vec].
    rewrite vset_nat by (rewrite length_app; cbn; lia). rewrite !bind_Ok.
    change (set_vec (set_vec tout (dn ++ y :: td)) ?v) with (set_vec tout v).
    replace (<[length dn:=x]> (dn ++ y :: td)) with ((dn ++ [x]) ++ td).
    2:{ replace (length dn) with (length dn + 0)%nat at 1 by lia.
        rewrite insert_app_r. by rewrite <-app_assoc. }
    replace (Z.of_nat (length pre) + 1)
      with (Z.of_nat (length (pre ++ [x]))) by (rewrite length_app; cbn; lia).
    replace (Z.of_nat (length dn) + 1)
      with (Z.of_nat (length (dn ++ [x]))) by (rewrite length_app; cbn; lia).
    rewrite (IH (pre ++ [x]) (dn ++ [x]) td)
      by (rewrite <-?app_assoc; done || lia).
    rewrite length_app, <-!app_assoc. cbn. do 3 f_equal. lia.
Qed.

(** The outer loop: [N] copies one after the other. *)
Lemma repeat_outer_copies (t tout : Tensor T) (N : nat) (j0 : Z)
    (done todo : list T) :
  (N * length (vec t) ≤ length todo)%nat →
  for_up N j0 (λ j s,
      for_up (length (vec t)) 0 (λ i '(tout, count),
        x ← vget (vec t) i;
        v' ← vset (vec tout) count x;
        Ok (set_vec tout v', count + 1)) s)
    (set_vec tout (done ++ todo), Z.of_nat (length done))
  = Ok (set_vec tout (done ++ concat (replicate N (vec t))
                        ++ drop (N * length (vec t)) todo),
        Z.of_nat (length done + N * length (vec t))).
Proof.
  revert j0 done todo. induction N as [|N IH]; intros j0 dn td Hlen.
  - cbn. by rewrite drop_0, Nat.add_0_r.
  - rewrite for_up_S.
    pose proof (repeat_outer_copy t tout [] (vec t) dn td eq_refl
                  ltac:(lia)) as Hcopy.
    change (Z.of_nat (length (@nil T))) with 0 in Hcopy.
    rewrite Hcopy, bind_Ok, app_assoc.
    replace (length dn + length (vec t))%nat
      with (length (dn ++ vec t)) by (by rewrite length_app).
    rewrite IH by (rewrite length_drop; lia).
    rewrite drop_drop, length_app, <-!app_assoc. cbn [replicate concat].
    rewrite <-app_assoc. do 3 f_equal; lia.
Qed.

(** The shape that [repeat_outer(n)] requests of the constructor. *)
Lemma repeat_outer_shape (t : Tensor T) (n : Z) :
  wf t → positive_dims t → nelem t ≤ int_max → in_int (n * nelem t) →
  int_shape (n :: dim t).
Proof.
  intros (_ & Hnelem & _) Hpos Hmax Hn. rewrite Hnelem in *.
  by apply int_shape_cons.
Qed.

Lemma repeat_outer_buffer (t : Tensor T) (n : Z) :
  wf t → positive_dims t → 0 ≤ n →
  nelem t ≤ int_max → n * nelem t ≤ int_max →
  ∃ tout,
    repeat_outer t n = Ok tout ∧ wf tout ∧
    dim tout = n :: dim t ∧ nelem tout = n * nelem t ∧
    vec tout = concat (replicate (Z.to_nat n) (vec t)).
Proof.
  intros Hwf Hpos Hn Hmax Hmax'. pose proof Hwf as (_ & Hnelem & Hlen).
  pose proof (product_pos _ Hpos) as Hprod.
  assert (int_shape (n :: dim t)) as Hint.
  { apply repeat_outer_shape; [done..|unfold in_int, int_min; nia]. }
  exists (mkTensor (offsets_of (n :: dim t)) (n * nelem t) (n :: dim t)
            (concat (replicate (Z.to_nat n) (vec t)))).
  split_and!; [|split_and!|done..]; cbn [offsets nelem dim vec].
  - unfold repeat_outer. cbn zeta. rewrite Tensor_new32_ideal by done.
    rewrite Tensor_new_Ok, bind_Ok by (rewrite product_cons; nia).
    rewrite product_cons, <-Hnelem.
    replace (Z.to_nat (nelem t)) with (length (vec t)) by lia.
    pose proof (repeat_outer_copies t
      (mkTensor (offsets_of (n :: dim t)) (n * nelem t) (n :: dim t) [])
      (Z.to_nat n) 0 [] (replicate (Z.to_nat (n * nelem t)) szero)) as Hrun.
    change (set_vec ?a ([] ++ ?b)) with
      (mkTensor (offsets a) (nelem a) (dim a) b) in Hrun.
    cbn [offsets nelem dim vec length] in Hrun.
    change (Z.of_nat 0) with 0 in Hrun.
    rewrite Hrun by (rewrite length_replicate; nia).
    rewrite bind_Ok. cbn [app].
    rewrite drop_ge by (rewrite length_replicate; nia).
    by rewrite app_nil_r.
  - done.
  - rewrite product_cons. lia.
  - rewrite length_concat.
    assert (∀ N, sum_list (length <$> replicate N (vec t))
                 = (N * length (vec t))%nat) as ->; [|nia].
    induction N as [|N IHN]; [done|]. cbn. rewrite IHN. lia.
Qed.

(** X16. On a tensor with positive dims and an [int] number of elements,
    and for [n ≥ 0] with [n * nelem] representable as [int],
    [repeat_outer(n)] returns a tensor of shape [n] followed by [dim],
    whose buffer is the buffer of the tensor it was called on, [n] times
    one after the other. *)
Theorem repeat_outer_concatenates (t : Tensor T) (n : Z) :
  wf t → positive_dims t → 0 ≤ n →
  nelem t ≤ int_max → n * nelem t ≤ int_max →
  ∃ tout,
    repeat_outer t n = Ok tout ∧ wf tout ∧
    dim tout = n :: dim t ∧ nelem tout = n * nelem t ∧
    vec tout = concat (replicate (Z.to_nat n) (vec t)).
Proof. apply repeat_outer_buffer. Qed.

(** X17. With a negative count whose product with [nelem] is
    representable as [int], both replications fail on a tensor with
    positive dims and an [int] number of elements: the buffer of the result
    cannot be sized. *)
Theorem repeat_negative_count (t : Tensor T) (n : Z) :
  wf t → positive_dims t → n < 0 →
  nelem t ≤ int_max → int_min ≤ nelem t * n →
  repeat_inner t n = Err LengthError ∧ repeat_outer t n = Err LengthError.
Proof.
  intros Hwf Hpos Hn Hmax Hmin. pose proof Hwf as (_ & Hnelem & _).
  pose proof (product_pos _ Hpos).
  assert (in_int (nelem t * n)) as Hint
    by (unfold in_int, int_max in *; nia).
  unfold repeat_inner, repeat_outer. cbn zeta.
  rewrite !Tensor_new32_ideal.
  - rewrite !Tensor_new_Err; [done| |].
    + rewrite product_cons. nia.
    + rewrite product_app, product_cons, product_nil. nia.
  - apply repeat_outer_shape; [done..|by rewrite Z.mul_comm].
  - by apply repeat_inner_shape.
Qed.

End MoreReplication.

(** ** Element access and [fill_sequence] *)

Section MoreAccess.
Context {T : Type} `{Scalar T}.

Lemma location_same_shape (t t' : Tensor T) (c : list Z) :
  same_shape t t' → location t' c = location t c.
Proof. intros (Hdim & Hoffs & _). unfold location. by rewrite Hdim, Hoffs. Qed.

(** X19. On a tensor with positive dims, an assignment through
    [operator()] at coordinates within their extents succeeds and keeps
    the shape; afterwards [operator()] at the same coordinates gives the
    assigned value and at any other coordinates what it gave before. *)
Theorem op_call_assign_then_read (t : Tensor T) (c : list Z) (x : T) :
  wf t → positive_dims t → valid_coords (dim t) c →
  ∃ t', op_call_assign c x t = (t', Ok tt) ∧ same_shape t t' ∧
    op_call t' c = Ok x ∧
    ∀ c', valid_coords (dim t) c' → c' ≠ c → op_call t' c' = op_call t c'.
Proof.
  intros Hwf Hpos Hc.
  destruct (location_range t c Hwf Hpos Hc) as (loc & Hloc & _ & Hin).
  destruct (vget_in_range (vec t) loc Hin) as [y Hy].
  assert (same_shape t (set_vec t (<[Z.to_nat loc:=x]> (vec t)))) as Hsame
    by (apply same_shape_set_vec, length_insert).
  exists (set_vec t (<[Z.to_nat loc:=x]> (vec t))). split_and!.
  - unfold op_call_assign. rewrite st_bind_get. cbn beta.
    rewrite Hloc, st_bind_lift_Ok. unfold st_write.
    by rewrite vset_at.
  - done.
  - unfold op_call. rewrite (location_same_shape _ _ _ Hsame), Hloc, bind_Ok.
    by eapply vget_insert_eq.
  - intros c' Hc' Hne. unfold op_call.
    rewrite (location_same_shape _ _ _ Hsame).
    destruct (location_range t c' Hwf Hpos Hc') as (loc' & Hloc' & _).
    rewrite Hloc', !bind_Ok. cbn [vec set_vec].
    apply vget_insert_ne; [lia|]. intros ->. apply Hne.
    apply (location_inj t); [done..|]. by rewrite Hloc, Hloc'.
Qed.

End MoreAccess.

(** X20. After [fill_sequence] on a tensor of integers with positive
    dims, the element at coordinates within their extents is the flat
    offset of those coordinates. *)
Theorem fill_sequence_stores_offsets (t : Tensor Z) (c : list Z) :
  wf t → positive_dims t → valid_coords (dim t) c →
  same_shape t (fill_sequence t).1 ∧
  ∃ loc, location t c = Ok loc ∧ op_call (fill_sequence t).1 c = Ok loc.
Proof.
  intros Hwf Hpos Hc.
  destruct (location_range t c Hwf Hpos Hc) as (loc & Hloc & _ & Hin).
  assert (same_shape t (fill_sequence t).1) as Hsame.
  { apply same_shape_set_vec. rewrite length_seqZ. lia. }
  split; [done|]. exists loc. split; [done|].
  unfold op_call. rewrite (location_same_shape _ _ _ Hsame), Hloc, bind_Ok.
  cbn. apply vget_at; [lia|]. rewrite lookup_seqZ_lt by lia. f_equal. lia.
Qed.

(** ** [transform] with weights that do not fit *)

Section MoreTransformAll.
Context {T : Type} `{Scalar T}.

(** X21. On a tensor with positive dims, [transform] with a number of
    weights other than the extent of the axis stops at the assertion of
    the first line, and with an axis that is negative or not below the
    rank it stops in [plane]; either way no element has been written. *)
Theorem transform_rejects (t : Tensor T) (axis : Z) (f : T → T → T)
    (w : list T) :
  wf t → positive_dims t →
  (axis < 0 ∨ ndim t ≤ axis →
     transform axis f w t = (t, Err OutOfBounds)) ∧
  (∀ d, 0 ≤ axis < ndim t → vget (dim t) (ndim t - 1 - axis) = Ok d →
        Z.of_nat (length w) ≠ d →
        transform axis f w t = (t, Err AssertionFailed)).
Proof.
  intros Hwf Hpos. split.
  - intros Hax. unfold transform. rewrite st_bind_get. cbn beta.
    pose proof (plane_edge t axis 0 Hwf) as [_ Hplane].
    rewrite Hplane by done. apply st_bind_lift_Err.
  - intros d Hax Hd Hne.
    destruct (plane_lines_within t axis d Hwf Hpos Hax Hd)
      as (off & locs & Ho & Hoff & Hdpos & Hplane & _).
    pose proof Hplane as Hplane'.
    destruct (plane_Ok t axis 0 Hwf Hpos Hax) as (o & _ & Hfilter).
    rewrite Hplane in Hfilter. injection Hfilter as Hfilter.
    assert (locs ≠ []) as Hnonempty.
    { intros ->. symmetry in Hfilter. apply fmap_nil_inv in Hfilter.
      pose proof Hwf as (_ & Hn & _). pose proof (product_pos _ Hpos).
      unfold ndim in Hax.
      destruct (lookup_lt_is_Some_2 (reverse (dim t)) (Z.to_nat axis))
        as [d' Hd']; [rewrite length_reverse; lia|].
      pose proof (count_zero_digit _ _ _
        (proj2 (Forall_reverse _ _) Hpos) Hd') as Hcount.
      rewrite product_reverse, <-Hn, Hfilter in Hcount. cbn in Hcount. lia. }
    destruct locs as [|l locs]; [done|].
    unfold transform. rewrite st_bind_get. cbn beta.
    rewrite Hplane, st_bind_lift_Ok. cbn [length]. rewrite st_for_up_S.
    unfold mbind at 1, ST_bind at 1. unfold mbind at 1, ST_bind at 1.
    change (vget (l :: locs) 0) with (Ok (A:=Z) l). unfold st_lift at 1.
    by rewrite (proj2 (transform_dim_checks t l axis f w) d Hd Hne).
Qed.

End MoreTransformAll.

(** ** Coordinates in a replicated tensor *)

Lemma value_snoc (rdim rix : list Z) (d x : Z) :
  length rdim = length rix →
  value (rdim ++ [d]) (rix ++ [x]) = value rdim rix + x * product rdim.
Proof.
  revert rix. induction rdim as [|d0 ds IH]; intros [|y ys] Hlen;
    simplify_eq/=.
  - rewrite product_nil. lia.
  - rewrite (IH ys) by done. rewrite product_cons. lia.
Qed.

Lemma lookup_concat_replicate {A} (v : list A) (N j i : nat) :
  (j < N)%nat → (i < length v)%nat →
  concat (replicate N v) !! (j * length v + i)%nat = v !! i.
Proof.
  revert j. induction N as [|N IH]; intros j Hj Hi; [lia|]. cbn.
  destruct j as [|j]; cbn.
  - by rewrite lookup_app_l.
  - rewrite lookup_app_r by lia. rewrite <-(IH j) by lia. f_equal. lia.
Qed.

Section ReplicatedCoordinates.
Context {T : Type} `{Scalar T}.

(** X22. In the tensor that [repeat_inner(n)] returns, with [nelem * n]
    representable as [int], the element at the coordinates [c] followed by
    any [j] within [0, n) is the element at [c] of the tensor it was called
    on. *)
Theorem repeat_inner_coordinates (t : Tensor T) (n j : Z) (c : list Z) :
  wf t → positive_dims t → valid_coords (dim t) c → 0 ≤ j < n →
  nelem t * n ≤ int_max →
  ∃ tout x, repeat_inner t n = Ok tout ∧
    op_call t c = Ok x ∧ op_call tout (c ++ [j]) = Ok x.
Proof.
  intros Hwf Hpos Hc Hj Hmax. pose proof Hwf as (_ & Hnelem & Hlen).
  pose proof (product_pos _ Hpos) as Hprod.
  assert (int_shape (dim t ++ [n])) as Hint.
  { apply repeat_inner_shape; [done..|nia|unfold in_int, int_min; nia]. }
  destruct (location_range t c Hwf Hpos Hc) as (loc & Hloc & _ & Hin).
  destruct (vget_in_range (vec t) loc Hin) as [x Hx].
  pose proof (Forall2_length _ _ _ Hc) as Hclen.
  set (tout := mkTensor (offsets_of (dim t ++ [n])) (nelem t * n)
                 (dim t ++ [n]) (flat_map (replicate (Z.to_nat n)) (vec t))).
  assert (wf tout) as Hwfout.
  { unfold tout. split_and!; cbn [offsets nelem dim vec]; [done| |].
    - rewrite product_app, product_cons, product_nil. lia.
    - rewrite length_flat_map_replicate. nia. }
  exists tout, x. split; [apply repeat_inner_Ok; [done|lia..|done]|].
  split; [unfold op_call; by rewrite Hloc, bind_Ok|].
  unfold op_call.
  rewrite (location_Ok tout) by (done || (cbn; by rewrite !length_app, Hclen)).
  rewrite bind_Ok. cbn [offsets nelem dim vec tout].
  rewrite !reverse_snoc. cbn [value].
  rewrite location_Ok in Hloc by done. injection Hloc as Hloc.
  rewrite Hloc. apply vget_at; [nia|].
  apply vget_Ok in Hx as [_ Hx]. rewrite <-Hx.
  replace (Z.to_nat (j + n * loc))
    with (Z.to_nat loc * Z.to_nat n + Z.to_nat j)%nat by nia.
  apply lookup_flat_map_replicate. lia.
Qed.

(** X23. In the tensor that [repeat_outer(n)] returns, with [n * nelem]
    representable as [int], the element at any [j] within [0, n) followed
    by the coordinates [c] is the element at [c] of the tensor it was
    called on. *)
Theorem repeat_outer_coordinates (t : Tensor T) (n j : Z) (c : list Z) :
  wf t → positive_dims t → valid_coords (dim t) c → 0 ≤ j < n →
  n * nelem t ≤ int_max →
  ∃ tout x, repeat_outer t n = Ok tout ∧
    op_call t c = Ok x ∧ op_call tout (j :: c) = Ok x.
Proof.
  intros Hwf Hpos Hc Hj Hmax. pose proof Hwf as (_ & Hnelem & Hlen).
  pose proof (product_pos _ Hpos) as Hprod.
  destruct (location_range t c Hwf Hpos Hc) as (loc & Hloc & _ & Hin).
  destruct (vget_in_range (vec t) loc Hin) as [x Hx].
  pose proof (Forall2_length _ _ _ Hc) as Hclen.
  destruct (repeat_outer_buffer t n Hwf Hpos ltac:(lia) ltac:(nia) Hmax)
    as (tout & Hrun & Hwfout & Hdim & _ & Hvec).
  exists tout, x. split; [done|].
  split; [unfold op_call; by rewrite Hloc, bind_Ok|].
  unfold op_call. rewrite location_Ok by (rewrite ?Hdim; cbn; done || lia).
  rewrite bind_Ok, Hdim, Hvec, !reverse_cons.
  rewrite value_snoc by (by rewrite !length_reverse).
  rewrite location_Ok in Hloc by done. injection Hloc as Hloc.
  rewrite Hloc, product_reverse, <-Hnelem, <-Hlen.
  apply vget_at; [nia|].
  apply vget_Ok in Hx as [_ Hx]. rewrite <-Hx.
  replace (Z.to_nat (loc + j * Z.of_nat (length (vec t))))
    with (Z.to_nat j * length (vec t) + Z.to_nat loc)%nat by nia.
  apply lookup_concat_replicate; lia.
Qed.

End ReplicatedCoordinates.

(** ** The further properties at concrete tensors *)

Ltac solve_coords :=
  unfold valid_coords; cbn; repeat (constructor; [lia|]); constructor.

Lemma zeros235_wf : wf zeros235.
Proof. by split_and!. Qed.

Lemma zeros235_positive : positive_dims zeros235.
Proof. repeat constructor. Qed.

Lemma zeros253_positive : positive_dims zeros253.
Proof. repeat constructor. Qed.

Lemma empty203_wf : wf empty203.
Proof. by split_and!. Qed.

Lemma line12_wf : wf line12.
Proof. by split_and!. Qed.

Lemma line123_wf : wf line123.
Proof. by split_and!. Qed.

Lemma negatives23_wf : wf negatives23.
Proof. by split_and!. Qed.

Lemma negatives23_positive : positive_dims negatives23.
Proof. repeat constructor. Qed.

Lemma constructor_layout_witness :
  dim zeros235 = [2; 3; 5] ∧ nelem zeros235 = product [2; 3; 5] ∧
  Z.of_nat (length (vec zeros235)) = nelem zeros235 ∧
  Forall (λ x, x = szero) (vec zeros235) ∧
  length (offsets zeros235) = length [2; 3; 5] ∧
  ([2; 3; 5] ≠ [] → last (offsets zeros235) = Some 1) ∧
  (∀ i o d, offsets zeros235 !! S i = Some o → [2; 3; 5] !! S i = Some d →
            offsets zeros235 !! i = Some (o * d)).
Proof.
  apply (constructor_layout [2; 3; 5] zeros235); [compute_done|reflexivity].
Defined.

Lemma location_within_buffer_witness :
  ∃ loc, location example235 [1; 2; 3] = Ok loc ∧
         0 ≤ loc < nelem example235 ∧
         0 ≤ loc < Z.of_nat (length (vec example235)).
Proof.
  apply (location_within_buffer example235 [1; 2; 3]
           example235_wf example235_positive).
  solve_coords.
Defined.

Lemma location_injective_witness : [1; 2; 3] = [1; 2; 3].
Proof.
  apply (location_injective example235 [1; 2; 3] [1; 2; 3] example235_wf);
    [solve_coords|solve_coords|reflexivity].
Defined.

Lemma index_within_extents_witness :
  ∃ c, index example235 28 = Ok c ∧ valid_coords (dim example235) c.
Proof.
  apply (index_within_extents example235 28
           example235_wf example235_positive).
  cbn. lia.
Defined.

Lemma location_coordinate_count_witness :
  location example235 [1; 2] = Err OutOfBounds ∧
  location example235 [1; 2; 3; 9]
  = location example235 (take (length (dim example235)) [1; 2; 3; 9]).
Proof.
  split.
  - apply (proj1 (location_coordinate_count example235 [1; 2]
                    example235_wf)). cbn. lia.
  - apply (proj2 (location_coordinate_count example235 [1; 2; 3; 9]
                    example235_wf)). cbn. lia.
Defined.

Lemma index_zero_extent_witness : index empty203 0 = Err DivisionByZero.
Proof.
  apply (index_zero_extent empty203 0). cbn.
  apply elem_of_cons. right. apply elem_of_cons. by left.
Defined.

Lemma plane_axis_edge_cases_witness :
  plane empty203 7 0 = Ok [] ∧ plane example235 3 0 = Err OutOfBounds.
Proof.
  split.
  - apply (proj1 (plane_axis_edge_cases empty203 7 0 empty203_wf)).
    reflexivity.
  - apply (proj2 (plane_axis_edge_cases example235 3 0 example235_wf)
             example235_positive).
    right. unfold ndim. cbn. lia.
Defined.

Lemma plane_at_coordinate_witness :
  ∃ locs, plane example235 1 2 = Ok locs ∧
    Z.of_nat (length locs) = nelem example235 / 3 ∧
    Forall (λ l, 0 ≤ l < nelem example235 ∧
                 (id ← index example235 l;
                  vget id (ndim example235 - 1 - 1)) = Ok 2) locs.
Proof.
  apply (plane_at_coordinate example235 1 2 3
           example235_wf example235_positive);
    [unfold ndim; cbn; lia|reflexivity|lia].
Defined.

Lemma transform_dim_rejects_witness :
  transform_dim 0 3 smoothing [1; 2; 3] zeros235
    = (zeros235, Err OutOfBounds) ∧
  transform_dim 0 0 smoothing [1; 2; 3] zeros235
    = (zeros235, Err AssertionFailed).
Proof.
  split.
  - apply (proj1 (transform_dim_rejects zeros235 0 3 smoothing [1; 2; 3])).
    right. unfold ndim. cbn. lia.
  - apply (proj2 (transform_dim_rejects zeros235 0 0 smoothing [1; 2; 3]) 5);
      [reflexivity|cbn; lia].
Defined.

Lemma transform_dim_updates_line_witness :
  ∃ t', transform_dim 0 0 smoothing [1; 2; 3] zeros253 = (t', Ok tt) ∧
    same_shape zeros253 t' ∧
    (∀ c, 0 ≤ c < 3 →
       ∃ x wc, vget (vec zeros253) (0 + c * 1) = Ok x ∧
               vget [1; 2; 3] c = Ok wc ∧
               vget (vec t') (0 + c * 1) = Ok (smoothing x wc)) ∧
    (∀ j, (∀ c, 0 ≤ c < 3 → j ≠ 0 + c * 1) →
       vget (vec t') j = vget (vec zeros253) j).
Proof.
  apply (transform_dim_updates_line zeros253 0 0 3 1 smoothing [1; 2; 3]);
    [reflexivity|reflexivity|reflexivity|lia|lia|cbn; lia].
Defined.

Lemma transform_updates_every_element_witness :
  ∃ t', transform 0 smoothing [1; 2; 3] zeros253 = (t', Ok tt) ∧
    same_shape zeros253 t' ∧
    ∀ j, 0 ≤ j < nelem zeros253 →
      ∃ x c wc, vget (vec zeros253) j = Ok x ∧
        (id ← index zeros253 j; vget id (ndim zeros253 - 1 - 0)) = Ok c ∧
        vget [1; 2; 3] c = Ok wc ∧ vget (vec t') j = Ok (smoothing x wc).
Proof.
  apply (transform_updates_every_element zeros253 0 3 smoothing [1; 2; 3]
           zeros253_wf zeros253_positive);
    [unfold ndim; cbn; lia|reflexivity|reflexivity].
Defined.

Lemma accumulate_dim_folds_from_zero_witness :
  ∃ xs, length xs = Z.to_nat 3 ∧
    (∀ c, 0 ≤ c < 3 → vget xs c = vget (vec line123) (0 + c * 1)) ∧
    accumulate_dim line123 10 0 0 Z.add []
    = Ok (fold_left (λ v p, Z.add v (smul p.1 p.2))
            (zip (if decide (@nil Z = []) then replicate (length xs) sone
                  else []) xs) szero).
Proof.
  apply (accumulate_dim_folds_from_zero line123 10 0 0 3 1 Z.add []);
    [reflexivity|reflexivity|by left|lia|lia|cbn; lia].
Defined.

Lemma accumulate_dim_rejects_witness :
  accumulate_dim line123 0 0 0 Z.add [1; 2] = Err AssertionFailed ∧
  accumulate_dim line123 0 0 1 Z.add [] = Err OutOfBounds.
Proof.
  split.
  - apply (proj1 (accumulate_dim_rejects line123 0 0 0 Z.add [1; 2]) 3);
      [reflexivity|done|cbn; lia].
  - apply (proj2 (accumulate_dim_rejects line123 0 0 1 Z.add [])
             line123_wf).
    right. unfold ndim. cbn. lia.
Defined.

Lemma accumulate_reduces_lines_witness :
  ∃ tens locs,
    accumulate example235 0 1 Z.add [] = Ok tens ∧
    plane example235 1 0 = Ok locs ∧
    wf tens ∧ positive_dims tens ∧
    dim tens = delete (Z.to_nat (ndim example235 - 1 - 1)) (dim example235) ∧
    nelem tens * 3 = nelem example235 ∧
    Forall2 (λ l r, accumulate_dim example235 0 l 1 Z.add [] = Ok r)
      locs (vec tens).
Proof.
  apply (accumulate_reduces_lines example235 0 1 3 Z.add []
           example235_wf example235_positive);
    [unfold ndim; cbn; lia|reflexivity|by left].
Defined.

Lemma max_dim_floor_zero_witness :
  ∃ tens locs,
    max_dim negatives23 0 = Ok tens ∧ plane negatives23 0 0 = Ok locs ∧
    dim tens = delete (Z.to_nat (ndim negatives23 - 1 - 0)) (dim negatives23) ∧
    Forall2 (λ l r,
        0 ≤ r ∧
        (∀ c, 0 ≤ c < 3 →
           ∃ x, vget (vec negatives23) (l + c * 1) = Ok x ∧ x ≤ r) ∧
        (r = 0 ∨ ∃ c, 0 ≤ c < 3 ∧ vget (vec negatives23) (l + c * 1) = Ok r))
      locs (vec tens).
Proof.
  apply (max_dim_floor_zero negatives23 0 3 1
           negatives23_wf negatives23_positive);
    [unfold ndim; cbn; lia|cbn; lia|reflexivity|reflexivity].
Defined.

Lemma repeat_outer_concatenates_witness :
  ∃ tout,
    repeat_outer example235 2 = Ok tout ∧ wf tout ∧
    dim tout = 2 :: dim example235 ∧ nelem tout = 2 * nelem example235 ∧
    vec tout = concat (replicate (Z.to_nat 2) (vec example235)).
Proof.
  apply (repeat_outer_concatenates example235 2
           example235_wf example235_positive);
    [lia|by vm_compute|by vm_compute].
Defined.

Lemma repeat_negative_count_witness :
  repeat_inner example235 (-1) = Err LengthError ∧
  repeat_outer example235 (-1) = Err LengthError.
Proof.
  apply (repeat_negative_count example235 (-1)
           example235_wf example235_positive);
    [lia|by vm_compute|by vm_compute].
Defined.

Lemma op_call_assign_then_read_witness :
  ∃ t', op_call_assign [1; 2; 3] 99 example235 = (t', Ok tt) ∧
    same_shape example235 t' ∧
    op_call t' [1; 2; 3] = Ok 99 ∧
    ∀ c', valid_coords (dim example235) c' → c' ≠ [1; 2; 3] →
          op_call t' c' = op_call example235 c'.
Proof.
  apply (op_call_assign_then_read example235 [1; 2; 3] 99
           example235_wf example235_positive).
  solve_coords.
Defined.

Lemma fill_sequence_stores_offsets_witness :
  same_shape zeros235 (fill_sequence zeros235).1 ∧
  ∃ loc, location zeros235 [1; 2; 3] = Ok loc ∧
         op_call (fill_sequence zeros235).1 [1; 2; 3] = Ok loc.
Proof.
  apply (fill_sequence_stores_offsets zeros235 [1; 2; 3]
           zeros235_wf zeros235_positive).
  solve_coords.
Defined.

Lemma transform_rejects_witness :
  transform 3 smoothing [1; 2; 3] zeros235 = (zeros235, Err OutOfBounds) ∧
  transform 0 smoothing [1; 2; 3] zeros235
    = (zeros235, Err AssertionFailed).
Proof.
  destruct (transform_rejects zeros235 3 smoothing [1; 2; 3]
              zeros235_wf zeros235_positive) as [Haxis _].
  destruct (transform_rejects zeros235 0 smoothing [1; 2; 3]
              zeros235_wf zeros235_positive) as [_ Hweights].
  split.
  - apply Haxis. right. unfold ndim. cbn. lia.
  - apply (Hweights 5); [unfold ndim; cbn; lia|reflexivity|cbn; lia].
Defined.

Lemma repeat_inner_coordinates_witness :
  ∃ tout x, repeat_inner example235 2 = Ok tout ∧
    op_call example235 [1; 2; 3] = Ok x ∧
    op_call tout ([1; 2; 3] ++ [1]) = Ok x.
Proof.
  apply (repeat_inner_coordinates example235 2 1 [1; 2; 3]
           example235_wf example235_positive);
    [solve_coords|lia|by vm_compute].
Defined.

Lemma repeat_outer_coordinates_witness :
  ∃ tout x, repeat_outer example235 2 = Ok tout ∧
    op_call example235 [1; 2; 3] = Ok x ∧
    op_call tout (1 :: [1; 2; 3]) = Ok x.
Proof.
  apply (repeat_outer_coordinates example235 2 1 [1; 2; 3]
           example235_wf example235_positive);
    [solve_coords|lia|by vm_compute].
Defined.
